(** * AI Video Studio: the handlers of [src/App.tsx]

    A shallow embedding of the event handlers of the [App] component
    (scene generation, rendering, download, the scene editor and the
    voiced preview) and the properties the specification states about
    them.

    Conventions.
    - JavaScript numbers are modelled by their integer fragment ([Z]):
      durations are whole seconds, clock readings whole milliseconds, so
      every product and sum below is exact in double precision too.
    - [string | null] is [option string]; a value is _truthy_ when it is
      neither [null] nor the empty string.
    - A promise settles to [Some v] (fulfilled with [v]) or [None]
      (rejected).  [handleRenderVideo] is cut at its [await] into the part
      that runs synchronously and the continuation; the loop of
      [handleGenerateScenes] is run from start to end, no other handler
      coming in between; the preview runs on an explicit event loop.
    - [setProgress] only feeds the loading overlay and is left out. *)

From Stdlib Require Import ZArith NArith List String Bool Arith Lia.
Import ListNotations.

Local Open Scope Z_scope.

(** ** Data model ([store/videoStore]) *)

Inductive Status := draft | ready | rendering | complete.

Inductive VoiceType := female | male | neutral.

Inductive Step := script | style | scenes | audio | render | preview.

Module Scene.
Record VideoScene := mk {
  id : string;
  text : string;
  imageUrl : option string;
  duration : Z;
  voiceAudio : option string
}.
End Scene.
Definition VideoScene : Type := Scene.VideoScene.

Module Project.
Record VideoProject := mk {
  id : string;
  title : string;
  script : option string;
  style : string;
  scenes : list VideoScene;
  voiceType : VoiceType;
  musicTrack : option string;
  videoUrl : option string;
  status : Status
}.
End Project.
Definition VideoProject : Type := Project.VideoProject.

(** [Partial<VideoProject>] and [Partial<VideoScene>]: the fields a call
    site of [updateProject] / [updateScene] mentions. *)
Module Patch.
Record ProjectPatch := mk {
  title : option string;
  script : option string;
  style : option string;
  scenes : option (list VideoScene);
  voiceType : option VoiceType;
  musicTrack : option string;
  videoUrl : option string;
  status : option Status
}.
Record ScenePatch := mkScene {
  text : option string;
  imageUrl : option string;
  duration : option Z
}.
End Patch.

(** JavaScript truthiness of a string. *)
Definition truthy (s : string) : bool := negb (String.eqb s EmptyString).

(** [a || b] on strings. *)
Definition or_else (a b : string) : string := if truthy a then a else b.

(** ** Component state

    The store's [currentProject] and [isGenerating], the component's
    [currentStep] and [topic], the number of identifiers drawn from
    [crypto.randomUUID] so far, and the callbacks registered with
    [setTimeout(() => { setCurrentStep(s); setGenerating(false) }, ms)]
    that have not fired yet. *)
Record App := mkApp {
  currentProject : option VideoProject;
  isGenerating : bool;
  currentStep : Step;
  topic : string;
  drawn : nat;
  timers : list (Z * Step)
}.

Definition withProject (o : option VideoProject) (a : App) : App :=
  mkApp o (isGenerating a) (currentStep a) (topic a) (drawn a) (timers a).

Definition setGenerating (b : bool) (a : App) : App :=
  mkApp (currentProject a) b (currentStep a) (topic a) (drawn a) (timers a).

Definition setCurrentStep (s : Step) (a : App) : App :=
  mkApp (currentProject a) (isGenerating a) s (topic a) (drawn a) (timers a).

(** [setTimeout(() => { setCurrentStep(s); setGenerating(false) }, ms)] *)
Definition setTimeout_step (s : Step) (ms : Z) (a : App) : App :=
  mkApp (currentProject a) (isGenerating a) (currentStep a) (topic a)
        (drawn a) (timers a ++ [(ms, s)]).

(** The callback of such a timer, when it fires. *)
Definition fire (s : Step) (a : App) : App :=
  setGenerating false (setCurrentStep s a).

Definition orElse {A : Type} (o : option A) (d : A) : A :=
  match o with
  | Some x => x
  | None => d
  end.

(** [{ ...project, ...updates }] *)
Definition mergeProject (p : VideoProject) (u : Patch.ProjectPatch)
  : VideoProject :=
  Project.mk (Project.id p)
    (orElse (Patch.title u) (Project.title p))
    (match Patch.script u with Some s => Some s | None => Project.script p end)
    (orElse (Patch.style u) (Project.style p))
    (orElse (Patch.scenes u) (Project.scenes p))
    (orElse (Patch.voiceType u) (Project.voiceType p))
    (match Patch.musicTrack u with Some s => Some s | None => Project.musicTrack p end)
    (match Patch.videoUrl u with Some s => Some s | None => Project.videoUrl p end)
    (orElse (Patch.status u) (Project.status p)).

(** [{ ...scene, ...updates }] *)
Definition mergeScene (s : VideoScene) (u : Patch.ScenePatch) : VideoScene :=
  Scene.mk (Scene.id s)
    (orElse (Patch.text u) (Scene.text s))
    (match Patch.imageUrl u with Some i => Some i | None => Scene.imageUrl s end)
    (orElse (Patch.duration u) (Scene.duration s))
    (Scene.voiceAudio s).

(** Modelled from the spec: the store actions of [store/videoStore], which
    is not among the sources.  The Scene Store is "pure data, no behavior
    beyond CRUD", addressed by project id: [updateProject] merges the given
    fields into the current project. *)
Definition updateProject (pid : string) (u : Patch.ProjectPatch) (a : App) : App :=
  match currentProject a with
  | Some p =>
      if String.eqb (Project.id p) pid
      then withProject (Some (mergeProject p u)) a
      else a
  | None => a
  end.

(** Modelled from the spec: [addScene] of [store/videoStore].  "Scenes
    retain creation order, which is the sole ordering signal": a new scene
    goes to the end of the list. *)
Definition addScene (pid : string) (s : VideoScene) (a : App) : App :=
  match currentProject a with
  | Some p =>
      if String.eqb (Project.id p) pid
      then withProject
             (Some (mergeProject p
                      (Patch.mk None None None (Some (Project.scenes p ++ [s]))
                                None None None None))) a
      else a
  | None => a
  end.

(** Modelled from the spec: [updateScene] of [store/videoStore]; scenes are
    "mutated in place", found by their id. *)
Definition updateScene (pid sid : string) (u : Patch.ScenePatch) (a : App) : App :=
  match currentProject a with
  | Some p =>
      if String.eqb (Project.id p) pid
      then withProject
             (Some (mergeProject p
                      (Patch.mk None None None
                         (Some (map (fun s => if String.eqb (Scene.id s) sid
                                              then mergeScene s u else s)
                                    (Project.scenes p)))
                         None None None None))) a
      else a
  | None => a
  end.

(** ** External collaborators

    [services/aiServices] and [services/videoRenderer] are called, not
    defined, by the component; they are parameters of the development. *)
Record ParsedScene := mkParsed { parsed_text : string; parsed_duration : Z }.

Record RenderOptions := mkOptions {
  opt_scenes : list VideoScene;
  opt_style : string;
  opt_musicTrack : option string
}.

Record Services := mkServices {
  (** the [n]-th identifier [crypto.randomUUID()] returns *)
  randomUUID : nat -> string;
  (** [parseScriptToScenes(script)] *)
  parseScriptToScenes : string -> list ParsedScene;
  (** [generateImage(prompt, style)], as settled for the [k]-th request of
      the running handler: [None] is a rejected promise *)
  generateImage : nat -> string -> string -> option string;
  (** [renderVideo(options)]: the artifact URL, or [None] when it rejects *)
  renderVideo : RenderOptions -> option string;
  (** milliseconds [speakText(text, voiceType)] takes to resolve *)
  speakMs : string -> VoiceType -> N
}.

(** ** Rendering: [handleRenderVideo] *)

Definition patchStatus (s : Status) : Patch.ProjectPatch :=
  Patch.mk None None None None None None None (Some s).

Definition patchVideo (url : string) (s : Status) : Patch.ProjectPatch :=
  Patch.mk None None None None None None (Some url) (Some s).

(** Up to the [await]: [None] when the guard returns at once, otherwise the
    state the component is left in while [renderVideo] works, the project
    the closure holds, and the options handed to [renderVideo]. *)
Definition handleRenderVideo_begin (a : App)
  : option (App * VideoProject * RenderOptions) :=
  match currentProject a with
  | None => None
  | Some p =>
      if (List.length (Project.scenes p) =? 0)%nat then None
      else
        let a1 := setGenerating true a in
        let a2 := updateProject (Project.id p) (patchStatus rendering) a1 in
        Some (a2, p,
              mkOptions (Project.scenes p) (Project.style p) (Project.musicTrack p))
  end.

(** After the [await]: the [try] continues on a fulfilled promise, the
    [catch] runs on a rejected one. *)
Definition handleRenderVideo_settle (p : VideoProject) (outcome : option string)
  (a : App) : App :=
  match outcome with
  | Some videoUrl =>
      let a1 := updateProject (Project.id p) (patchVideo videoUrl complete) a in
      setTimeout_step preview 500 a1
  | None =>
      let a1 := updateProject (Project.id p) (patchStatus ready) a in
      setGenerating false a1
  end.

Definition handleRenderVideo (svc : Services) (a : App) : App :=
  match handleRenderVideo_begin a with
  | None => a
  | Some (a2, p, opts) => handleRenderVideo_settle p (renderVideo svc opts) a2
  end.

(** The artifact reference a call of [handleRenderVideo] obtains. *)
Definition renderedArtifact (svc : Services) (a : App) : option string :=
  match handleRenderVideo_begin a with
  | None => None
  | Some (_, _, opts) => renderVideo svc opts
  end.

Definition statusOf (a : App) : option Status :=
  option_map Project.status (currentProject a).

Definition videoUrlOf (a : App) : option string :=
  match currentProject a with
  | Some p => Project.videoUrl p
  | None => None
  end.

(** ** Download: [handleDownload] *)

Record Anchor := mkAnchor { href : string; download : string }.

(** The anchor that gets clicked, if any. *)
Definition handleDownload (a : App) : option Anchor :=
  match currentProject a with
  | None => None
  | Some p =>
      match Project.videoUrl p with
      | None => None
      | Some url =>
          if truthy url
          then Some (mkAnchor url
                       (String.append (or_else (Project.title p) "video") ".webm"))
          else None
      end
  end.

(** ** Scene generation: [handleGenerateScenes] *)

(** [crypto.randomUUID()] *)
Definition draw (svc : Services) (a : App) : string * App :=
  (randomUUID svc (drawn a),
   mkApp (currentProject a) (isGenerating a) (currentStep a) (topic a)
         (S (drawn a)) (timers a)).

(** One turn of the [for] loop: the [try] block when the image promise is
    fulfilled, the [catch] block when it is rejected.  [pid], [sty] and
    [top] are the project id, the style and the topic the closure holds. *)
Definition generateOne (svc : Services) (pid sty top : string)
  (i : nat) (ps : ParsedScene) (a : App) : App :=
  match generateImage svc i
          (String.append (parsed_text ps) (String.append ", " top)) sty with
  | Some url =>
      let (uuid, a1) := draw svc a in
      addScene pid
        (Scene.mk uuid (parsed_text ps) (Some url) (parsed_duration ps) None) a1
  | None =>
      let (uuid, a1) := draw svc a in
      addScene pid
        (Scene.mk uuid (parsed_text ps) None (parsed_duration ps) None) a1
  end.

(** [for (let i = 0; i < parsedScenes.length; i++)], entered at index [i]
    with [rest] the segments from [i] on. *)
Fixpoint generateLoop (svc : Services) (pid sty top : string)
  (i : nat) (rest : list ParsedScene) (a : App) : App :=
  match rest with
  | [] => a
  | ps :: rest' =>
      generateLoop svc pid sty top (S i) rest'
        (generateOne svc pid sty top i ps a)
  end.

Definition patchScenes (l : list VideoScene) : Patch.ProjectPatch :=
  Patch.mk None None None (Some l) None None None None.

Definition handleGenerateScenes (svc : Services) (a : App) : App :=
  match currentProject a with
  | None => a
  | Some p =>
      match Project.script p with
      | None => a
      | Some src =>
          if truthy src then
            let a1 := setGenerating true a in
            let parsedScenes := parseScriptToScenes svc src in
            let a2 := updateProject (Project.id p) (patchScenes []) a1 in
            let a3 := generateLoop svc (Project.id p) (Project.style p) (topic a)
                        0 parsedScenes a2 in
            setTimeout_step scenes 500 a3
          else a
      end
  end.

Definition scenesOf (a : App) : list VideoScene :=
  match currentProject a with
  | Some p => Project.scenes p
  | None => []
  end.

(** The "Duration" figure of the render step:
    [scenes.reduce((acc, s) => acc + s.duration, 0)]. *)
Definition totalDuration (l : list VideoScene) : Z :=
  fold_left (fun acc s => acc + Scene.duration s) l 0.

(** ** The scene editor *)

(** The attributes [min="2"] and [max="15"] of the duration field. *)
Definition duration_min : Z := 2.
Definition duration_max : Z := 15.

Definition withinBounds (d : Z) : bool :=
  (duration_min <=? d) && (d <=? duration_max).

(** [onChange] of the duration field of scene [sid]; [value] stands for
    [Number(e.target.value)]. *)
Definition durationChange (sid : string) (value : Z) (a : App) : App :=
  match currentProject a with
  | None => a
  | Some p =>
      updateScene (Project.id p) sid (Patch.mkScene None None (Some value)) a
  end.

(** [onChange] of the text area of scene [sid]. *)
Definition textChange (sid : string) (value : string) (a : App) : App :=
  match currentProject a with
  | None => a
  | Some p =>
      updateScene (Project.id p) sid (Patch.mkScene (Some value) None None) a
  end.

(** The bin button of scene [sid]. *)
Definition deleteScene (sid : string) (a : App) : App :=
  match currentProject a with
  | None => a
  | Some p =>
      updateProject (Project.id p)
        (patchScenes (filter (fun s => negb (String.eqb (Scene.id s) sid))
                             (Project.scenes p))) a
  end.

(** The "Add Scene" button. *)
Definition addSceneClick (svc : Services) (a : App) : App :=
  match currentProject a with
  | None => a
  | Some p =>
      let (uuid, a1) := draw svc a in
      addScene (Project.id p)
        (Scene.mk uuid "New scene text..." None 5 None) a1
  end.

(** ** The voiced preview: [handlePlayPreview] and [playScene]

    The preview runs on the browser's event loop.  The player below keeps
    a virtual clock (milliseconds), the component's [isPlaying] and
    [currentSceneIndex], the [previewIntervalRef] ref, and the queue of
    what the event loop still has to run: narration promises that will
    resolve and [setTimeout] callbacks that will fire.  After every task
    React commits the state; the sequence of commits is recorded in
    [frames], what the speech engine was asked to do in [sounds]. *)

Inductive Task :=
  (** the rest of [playScene(index)] after [await speakText(...)] *)
| AfterSpeak (p : VideoProject) (index : nat) (scene : VideoScene)
  (** the [setTimeout] callback [() => playScene(index)] *)
| PlayScene (p : VideoProject) (index : nat).

Record Pending := mkPending {
  due : Z;
  handle : option nat;   (* the timer id, for [setTimeout] callbacks *)
  task : Task
}.

Record Frame := mkFrame {
  at_ms : Z;
  playing : bool;
  index : nat
}.

Inductive Sound :=
| Spoken (text : string) (voice : VoiceType)
| Silenced.

Record Player := mkPlayer {
  now : Z;
  isPlaying : bool;
  currentSceneIndex : nat;
  previewIntervalRef : option nat;
  nextHandle : nat;
  queue : list Pending;
  frames : list Frame;
  sounds : list (Z * Sound)
}.

(** The component as mounted at clock reading [t]:
    [useState(false)], [useState(0)], [useRef(null)]. *)
Definition mounted (t : Z) : Player :=
  mkPlayer t false 0 None 1 [] [] [].

Definition setIsPlaying (b : bool) (m : Player) : Player :=
  mkPlayer (now m) b (currentSceneIndex m) (previewIntervalRef m)
           (nextHandle m) (queue m) (frames m) (sounds m).

Definition setCurrentSceneIndex (i : nat) (m : Player) : Player :=
  mkPlayer (now m) (isPlaying m) i (previewIntervalRef m)
           (nextHandle m) (queue m) (frames m) (sounds m).

Definition withQueue (q : list Pending) (m : Player) : Player :=
  mkPlayer (now m) (isPlaying m) (currentSceneIndex m) (previewIntervalRef m)
           (nextHandle m) q (frames m) (sounds m).

Definition withNow (t : Z) (m : Player) : Player :=
  mkPlayer t (isPlaying m) (currentSceneIndex m) (previewIntervalRef m)
           (nextHandle m) (queue m) (frames m) (sounds m).

Definition heard (s : Sound) (m : Player) : Player :=
  mkPlayer (now m) (isPlaying m) (currentSceneIndex m) (previewIntervalRef m)
           (nextHandle m) (queue m) (frames m) (sounds m ++ [(now m, s)]).

(** React re-renders with the state the task left. *)
Definition commit (m : Player) : Player :=
  mkPlayer (now m) (isPlaying m) (currentSceneIndex m) (previewIntervalRef m)
           (nextHandle m) (queue m)
           (frames m ++ [mkFrame (now m) (isPlaying m) (currentSceneIndex m)])
           (sounds m).

(** The queue is kept in firing order: by due time, and first come first
    served among equal due times. *)
Fixpoint enqueue (x : Pending) (q : list Pending) : list Pending :=
  match q with
  | [] => [x]
  | y :: r => if due x <? due y then x :: q else y :: enqueue x r
  end.

Definition isSpeech (x : Pending) : bool :=
  match task x with
  | AfterSpeak _ _ _ => true
  | PlayScene _ _ => false
  end.

(** Modelled from the spec: how a promise of [speakText]
    ([services/videoRenderer], not among the sources) reacts to the speech
    engine being cancelled.  "cancel immediately silences in-flight speech
    and resolves any pending completion": the continuation waiting for the
    utterance becomes due now. *)
Definition silence (m : Player) : Player :=
  withQueue
    (fold_left (fun q x => enqueue (mkPending (now m) (handle x) (task x)) q)
               (filter isSpeech (queue m))
               (filter (fun x => negb (isSpeech x)) (queue m)))
    m.

(** [speechSynthesis.cancel()] *)
Definition speechSynthesis_cancel (m : Player) : Player :=
  heard Silenced (silence m).

(** [clearInterval(id)]: timer ids are shared with [setTimeout]. *)
Definition clearInterval (id : nat) (m : Player) : Player :=
  withQueue
    (filter (fun x => match handle x with
                      | Some h => negb (h =? id)%nat
                      | None => true
                      end) (queue m))
    m.

(** The conversion of a number to a signed 32-bit integer (wrapping),
    which the browser applies to the delay of a timer. *)
Definition toInt32 (z : Z) : Z := (z + 2 ^ 31) mod 2 ^ 32 - 2 ^ 31.

(** The milliseconds a timer asked for with delay [ms] waits: the delay
    as a signed 32-bit integer, a negative one counting as zero. *)
Definition timerDelay (ms : Z) : Z := Z.max 0 (toInt32 ms).

Arguments timerDelay : simpl never.

(** [setTimeout(callback, ms)] *)
Definition setTimeout (callback : Task) (ms : Z) (m : Player) : Player :=
  mkPlayer (now m) (isPlaying m) (currentSceneIndex m) (previewIntervalRef m)
           (S (nextHandle m))
           (enqueue (mkPending (now m + timerDelay ms) (Some (nextHandle m))
                               callback)
                    (queue m))
           (frames m) (sounds m).

Section Sequencer.

Variable svc : Services.

(** Modelled from the spec: [speakText] of [services/videoRenderer], which
    is not among the sources.  "speak(text, voiceType) -> completion
    signal"; "starting a new utterance must first silence any utterance in
    progress".  The caller's continuation [k] runs when the utterance
    completes, [speakMs] milliseconds from now. *)
Definition speakText (txt : string) (v : VoiceType) (k : Task) (m : Player)
  : Player :=
  let m1 := heard (Spoken txt v) (silence m) in
  withQueue
    (enqueue (mkPending (now m1 + Z.of_N (speakMs svc txt v)) None k) (queue m1))
    m1.

(** [playScene(index)] up to its [await]; [p] is the project the closure
    of [handlePlayPreview] holds. *)
Definition playScene (p : VideoProject) (index : nat) (m : Player) : Player :=
  if (List.length (Project.scenes p) <=? index)%nat then
    setCurrentSceneIndex 0 (setIsPlaying false m)
  else
    let m1 := setCurrentSceneIndex index m in
    match nth_error (Project.scenes p) index with
    | Some scene =>
        speakText (Scene.text scene) (Project.voiceType p)
                  (AfterSpeak p index scene) m1
    | None => m1
    end.

(** What the event loop runs for a queue entry. *)
Definition exec (t : Task) (m : Player) : Player :=
  match t with
  | AfterSpeak p index scene =>
      setTimeout (PlayScene p (index + 1)) (Scene.duration scene * 1000) m
  | PlayScene p index => playScene p index m
  end.

(** The click handler of the preview button. *)
Definition handlePlayPreview (current : option VideoProject)
  (m : Player) : Player :=
  match current with
  | None => m
  | Some p =>
      if (List.length (Project.scenes p) =? 0)%nat then m
      else if isPlaying m then
        let m1 := setIsPlaying false m in
        let m2 := speechSynthesis_cancel m1 in
        match previewIntervalRef m2 with
        | Some id => clearInterval id m2
        | None => m2
        end
      else
        let m1 := setIsPlaying true m in
        let m2 := setCurrentSceneIndex 0 m1 in
        playScene p 0 m2
  end.

(** One turn of the event loop: the entry at the head of the queue runs
    at its due time, then React commits. *)
Definition step (m : Player) : option Player :=
  match queue m with
  | [] => None
  | x :: r => Some (commit (exec (task x) (withQueue r (withNow (due x) m))))
  end.

(** The event loop left alone until the queue is empty. *)
Fixpoint run (fuel : nat) (m : Player) : Player :=
  match fuel with
  | O => m
  | S fuel' =>
      match step m with
      | None => m
      | Some m' => run fuel' m'
      end
  end.

(** The event loop left alone up to clock reading [t]. *)
Fixpoint runUntil (t : Z) (fuel : nat) (m : Player) : Player :=
  match fuel with
  | O => m
  | S fuel' =>
      match queue m with
      | [] => m
      | x :: _ =>
          if due x <=? t then
            match step m with
            | None => m
            | Some m' => runUntil t fuel' m'
            end
          else m
      end
  end.

(** The user presses the preview button at clock reading [t]. *)
Definition click (current : option VideoProject) (t : Z) (fuel : nat)
  (m : Player) : Player :=
  commit (handlePlayPreview current (withNow t (runUntil t fuel m))).

(** A whole preview: the button is pressed in state [m] and the event
    loop is then left alone. *)
Definition previewRun (p : VideoProject) (m : Player) (fuel : nat) : Player :=
  run fuel (commit (handlePlayPreview (Some p) m)).

End Sequencer.

(** *** Reading the record of commits *)

(** The commits made on the way from state [m] to state [r]. *)
Definition since (m r : Player) : list Frame :=
  skipn (List.length (frames m)) (frames r).

(** The scene on display in a frame: the preview area shows
    [scenes[currentSceneIndex]] while [isPlaying]. *)
Definition shown (f : Frame) : option nat :=
  if playing f then Some (index f) else None.

Definition shows (i : nat) (f : Frame) : bool :=
  playing f && (index f =? i)%nat.

(** Milliseconds scene [i] was on display: every frame lasts until the
    next commit. *)
Fixpoint dwell (i : nat) (fs : list Frame) : Z :=
  match fs with
  | f :: (f' :: _) as rest =>
      (if shows i f then at_ms f' - at_ms f else 0) + dwell i rest
  | _ => 0
  end.

(** The scenes that came on display, in order: a frame counts when it
    shows a scene that the frame before it did not show. *)
Fixpoint visitedFrom (prev : option nat) (fs : list Frame) : list nat :=
  match fs with
  | [] => []
  | f :: rest =>
      match shown f with
      | Some i =>
          if match prev with Some j => (i =? j)%nat | None => false end
          then visitedFrom (Some i) rest
          else i :: visitedFrom (Some i) rest
      | None => visitedFrom None rest
      end
  end.

Definition visited (fs : list Frame) : list nat := visitedFrom None fs.

(** Scene [i] is on display at instant [t]: some frame showing it is the
    one in force at [t]. *)
Fixpoint currentAt (fs : list Frame) (t : Z) (i : nat) : Prop :=
  match fs with
  | f :: (f' :: _) as rest =>
      (shown f = Some i /\ at_ms f <= t < at_ms f') \/ currentAt rest t i
  | _ => False
  end.

(** Commits come in chronological order. *)
Fixpoint chronological (fs : list Frame) : Prop :=
  match fs with
  | f :: (f' :: _) as rest => at_ms f <= at_ms f' /\ chronological rest
  | _ => True
  end.

(** *** Closed forms used in the proofs *)

(** The commits of [playScene(k)] entered at clock reading [t] and left
    alone, [rest] being the scenes from [k] on: scene [k] comes on display,
    its narration completes, its timer fires and the next scene is
    entered; past the last scene the preview stops. *)
Fixpoint traversal (svc : Services) (v : VoiceType) (t : Z) (k : nat)
  (rest : list VideoScene) : list Frame :=
  match rest with
  | [] => [mkFrame t false 0]
  | sc :: rest' =>
      let t1 := t + Z.of_N (speakMs svc (Scene.text sc) v) in
      mkFrame t true k
        :: mkFrame t1 true k
        :: traversal svc v (t1 + timerDelay (Scene.duration sc * 1000)) (S k) rest'
  end.

(** The scenes the generation loop appends: segment [i] of the script
    becomes a scene carrying the [n]-th identifier and whatever the [i]-th
    image request settled to. *)
Fixpoint generatedScenes (svc : Services) (sty top : string) (n i : nat)
  (rest : list ParsedScene) : list VideoScene :=
  match rest with
  | [] => []
  | ps :: rest' =>
      Scene.mk (randomUUID svc n) (parsed_text ps)
               (generateImage svc i
                  (String.append (parsed_text ps) (String.append ", " top)) sty)
               (parsed_duration ps) None
        :: generatedScenes svc sty top (S n) (S i) rest'
  end.

(** ** The renderer, as the specification describes it

    [renderVideo] lives in [services/videoRenderer], which is not among
    the sources; [Services] leaves it open.  What a render makes of the
    scenes it is handed is taken from the specification. *)









(** ** A worked project *)

Module Demo.

Definition scene (i t : string) (d : Z) : VideoScene :=
  Scene.mk i t (Some "blob:image"%string) d None.

(** Three scenes of five seconds each. *)
Definition project : VideoProject :=
  Project.mk "p1" "Launch" (Some "one. two."%string) "cinematic"
    [scene "s1" "one" 5; scene "s2" "two" 5; scene "s3" "three" 5]
    female None None draft.

(** The same project before any scene exists. *)
Definition emptyProject : VideoProject :=
  Project.mk "p1" "Launch" (Some "one. two."%string) "cinematic"
    [] female None None draft.

(** No title, and an artifact already rendered. *)
Definition untitled : VideoProject :=
  Project.mk "p1" "" None "cinematic"
    [scene "s1" "one" 5] female None (Some "blob:video"%string) complete.

(** Narrating "two" takes eight seconds, anything else one second; the
    script parses to two segments; the second image request fails; the
    renderer succeeds. *)
Definition services : Services :=
  mkServices
    (fun n => String.append "uuid-" (String (Ascii.ascii_of_nat (48 + n)) ""))
    (fun _ => [mkParsed "one" 4; mkParsed "two" 6])
    (fun k _ _ => if (k =? 1)%nat then None else Some "blob:image"%string)
    (fun _ => Some "blob:video"%string)
    (fun t _ => if String.eqb t "two" then 8000%N else 1000%N).

(** The same collaborators with a renderer that fails. *)
Definition brokenRenderer : Services :=
  mkServices (randomUUID services) (parseScriptToScenes services)
             (generateImage services) (fun _ => None) (speakMs services).

Definition app (p : VideoProject) : App :=
  mkApp (Some p) false render "launch day" 0 [].

(** A preview of [project] started at clock reading 0. *)
Definition started : Player :=
  commit (handlePlayPreview services (Some project) (mounted 0)).

(** The button pressed again at 15 s: scene 2 (index 1) has been on
    display since 6 s, its narration ended at 14 s, its timer is running. *)
Definition cancelled : Player :=
  click services (Some project) 15000 100 started.

(** The event loop left alone after that. *)
Definition afterCancel : Player := run services 100 cancelled.

End Demo.

(** * The rest of the component

    The handlers the sections above leave out: script generation, style
    and audio choices, image regeneration, the step bar and the [disabled]
    conditions of the buttons; then what is needed to read a preview's
    narration. *)

(** ** Script generation: [handleGenerateScript] *)

(** The white space [String.prototype.trim] strips, among the characters
    below 256: tab, line feed, vertical tab, form feed, carriage return,
    space and no-break space. *)
Definition isWhiteSpace (c : Ascii.ascii) : bool :=
  let n := Ascii.nat_of_ascii c in
  (((9 <=? n) && (n <=? 13)) || (n =? 32) || (n =? 160))%nat.

Fixpoint trimStart (s : string) : string :=
  match s with
  | EmptyString => EmptyString
  | String c r => if isWhiteSpace c then trimStart r else s
  end.

Fixpoint trimEnd (s : string) : string :=
  match s with
  | EmptyString => EmptyString
  | String c r =>
      match trimEnd r with
      | EmptyString => if isWhiteSpace c then EmptyString else String c EmptyString
      | r' => String c r'
      end
  end.

(** [s.trim()] *)
Definition trim (s : string) : string := trimEnd (trimStart s).

Fixpoint allWhiteSpace (s : string) : bool :=
  match s with
  | EmptyString => true
  | String c r => isWhiteSpace c && allWhiteSpace r
  end.

(** The component's [scriptType] and [duration] (the length asked of the
    script, in seconds). *)
Record ScriptForm := mkForm { scriptType : string; duration : Z }.

Definition patchScript (newTitle newScript : string) : Patch.ProjectPatch :=
  Patch.mk (Some newTitle) (Some newScript) None None None None None None.

(** [generateScript] stands for [generateScript(topic, scriptType,
    duration)] of [services/aiServices], as settled. *)
Definition handleGenerateScript
  (generateScript : string -> string -> Z -> option string)
  (form : ScriptForm) (a : App) : App :=
  if negb (truthy (trim (topic a))) then a
  else
    match currentProject a with
    | None => a
    | Some p =>
        let a1 := setGenerating true a in
        match generateScript (topic a) (scriptType form) (duration form) with
        | Some generated =>
            let a2 := updateProject (Project.id p)
                        (patchScript (topic a) generated) a1 in
            setTimeout_step style 500 a2
        | None => setGenerating false a1
        end
    end.

(** [onChange] of the "Generated Script" text area. *)
Definition scriptChange (value : string) (a : App) : App :=
  match currentProject a with
  | None => a
  | Some p =>
      updateProject (Project.id p)
        (Patch.mk None (Some value) None None None None None None) a
  end.

(** ** Style and audio choices *)

Definition handleStyleSelect (styleId : string) (a : App) : App :=
  match currentProject a with
  | None => a
  | Some p =>
      updateProject (Project.id p)
        (Patch.mk None None (Some styleId) None None None None None) a
  end.

(** [onClick] of a voice button. *)
Definition voiceClick (voice : VoiceType) (a : App) : App :=
  match currentProject a with
  | None => a
  | Some p =>
      updateProject (Project.id p)
        (Patch.mk None None None None (Some voice) None None None) a
  end.

(** [onClick] of a music track button. *)
Definition musicClick (track : string) (a : App) : App :=
  match currentProject a with
  | None => a
  | Some p =>
      updateProject (Project.id p)
        (Patch.mk None None None None None (Some track) None None) a
  end.

(** ** Image regeneration: [handleRegenerateImage]

    The handler issues one image request, numbered 0. *)
Definition handleRegenerateImage (svc : Services) (sceneId text : string)
  (a : App) : App :=
  match currentProject a with
  | None => a
  | Some p =>
      let a1 := setGenerating true a in
      let a2 :=
        match generateImage svc 0 text (Project.style p) with
        | Some imageUrl =>
            updateScene (Project.id p) sceneId
              (Patch.mkScene None (Some imageUrl) None) a1
        | None => a1
        end in
      setGenerating false a2
  end.

(** ** The step bar *)

Definition steps : list Step := [script; style; scenes; audio; render; preview].

Definition Step_eqb (a b : Step) : bool :=
  match a, b with
  | script, script | style, style | scenes, scenes
  | audio, audio | render, render | preview, preview => true
  | _, _ => false
  end.

(** [Array.prototype.findIndex]: -1 when no element passes. *)
Fixpoint findIndex {A : Type} (f : A -> bool) (l : list A) : Z :=
  match l with
  | [] => -1
  | x :: r =>
      if f x then 0
      else let i := findIndex f r in if i =? -1 then -1 else i + 1
  end.

Definition getStepIndex (step : Step) : Z :=
  findIndex (fun s => Step_eqb s step) steps.

(** [onClick] of the button of step [target] in the step bar. *)
Definition stepClick (target : Step) (a : App) : App :=
  if getStepIndex target <=? getStepIndex (currentStep a)
  then setCurrentStep target a
  else a.

(** The [disabled] attribute of that button. *)
Definition stepDisabled (target : Step) (a : App) : bool :=
  getStepIndex (currentStep a) <? getStepIndex target.

(** ** When the buttons are disabled *)

(** "Generate Script": [!topic.trim() || isGenerating]. *)
Definition generateScriptDisabled (a : App) : bool :=
  negb (truthy (trim (topic a))) || isGenerating a.

(** "Generate Scene Images": [!currentProject?.style || isGenerating]. *)
Definition generateScenesDisabled (a : App) : bool :=
  negb (match currentProject a with
        | Some p => truthy (Project.style p)
        | None => false
        end)
  || isGenerating a.

(** "Render Video": [isGenerating || !currentProject?.scenes.length]. *)
Definition renderDisabled (a : App) : bool :=
  isGenerating a
  || match currentProject a with
     | Some p => (List.length (Project.scenes p) =? 0)%nat
     | None => true
     end.

(** Everything of a project but its scene list. *)
Definition settings (p : VideoProject)
  : string * string * option string * string * VoiceType
    * option string * option string * Status :=
  (Project.id p, Project.title p, Project.script p, Project.style p,
   Project.voiceType p, Project.musicTrack p, Project.videoUrl p,
   Project.status p).

Definition settingsOf (a : App)
  : option (string * string * option string * string * VoiceType
            * option string * option string * Status) :=
  option_map settings (currentProject a).

(** ** Reading a preview's narration *)

(** What a preview entered at clock reading [t] asks of the speech engine:
    each scene's text, when the scene comes on display. *)
Fixpoint narration (svc : Services) (v : VoiceType) (t : Z)
  (rest : list VideoScene) : list (Z * Sound) :=
  match rest with
  | [] => []
  | sc :: rest' =>
      (t, Spoken (Scene.text sc) v)
        :: narration svc v
             (t + Z.of_N (speakMs svc (Scene.text sc) v)
                + timerDelay (Scene.duration sc * 1000))
             rest'
  end.

(** Milliseconds from the first scene coming on display to the preview
    stopping. *)
Fixpoint previewLength (svc : Services) (v : VoiceType)
  (rest : list VideoScene) : Z :=
  match rest with
  | [] => 0
  | sc :: rest' =>
      Z.of_N (speakMs svc (Scene.text sc) v)
      + timerDelay (Scene.duration sc * 1000)
      + previewLength svc v rest'
  end.

(** A session at the preview button: the presses, each with the project
    the component holds at that moment and its clock reading, the event
    loop running in between. *)
Fixpoint session (svc : Services) (fuel : nat)
  (presses : list (option VideoProject * Z)) (m : Player) : Player :=
  match presses with
  | [] => m
  | (current, t) :: rest => session svc fuel rest (click svc current t fuel m)
  end.

Module Sample.

(** A script service that answers with a fixed script, and one that fails. *)
Definition writer (topic kind : string) (seconds : Z) : option string :=
  Some "one. two."%string.

Definition noWriter (topic kind : string) (seconds : Z) : option string := None.

Definition form : ScriptForm := mkForm "promotional" 30.

(** [Demo.project] in the component, on the script step, nothing typed. *)
Definition blank : App := mkApp (Some Demo.project) false script "  " 0 [].

(** The preview of [Demo.project] at 15 s, before any second press: the
    second scene's timer is queued. *)
Definition waiting : Player :=
  withNow 15000 (runUntil Demo.services 15000 100 Demo.started).

(** A project rendered once, with an artifact. *)
Definition rendered : VideoProject :=
  Project.mk "p1" "Launch" (Some "one. two."%string) "cinematic"
    [Demo.scene "s1" "one" 5; Demo.scene "s2" "two" 5]
    female None (Some "blob:old"%string) complete.

(** After the stop at 15 s ([Demo.cancelled]) the button is pressed once
    more at 16 s, and the event loop is left alone. *)
Definition restarted : Player :=
  click Demo.services (Some Demo.project) 16000 100 Demo.cancelled.

Definition afterRestart : Player := run Demo.services 100 restarted.

(** The collaborators of [Demo.services] with an image service that
    always fails. *)
Definition noImages : Services :=
  mkServices (randomUUID Demo.services) (parseScriptToScenes Demo.services)
             (fun _ _ _ => None) (renderVideo Demo.services)
             (speakMs Demo.services).

End Sample.

(** * Properties *)

(** ** The store *)

Lemma updateProject_own (p : VideoProject) (u : Patch.ProjectPatch) (a : App) :
  currentProject a = Some p ->
  updateProject (Project.id p) u a = withProject (Some (mergeProject p u)) a.
Proof.
  intros Hp. unfold updateProject. rewrite Hp.
  now rewrite String.eqb_refl.
Qed.

Lemma addScene_own (p : VideoProject) (s : VideoScene) (a : App) :
  currentProject a = Some p ->
  scenesOf (addScene (Project.id p) s a) = Project.scenes p ++ [s].
Proof.
  intros Hp. unfold addScene. rewrite Hp.
  now rewrite String.eqb_refl.
Qed.

(** ** Rendering *)

(** C3.  A call of [handleRenderVideo] on a project that has scenes sets
    the status to [rendering] before [renderVideo] is awaited, whatever the
    status was (so from [ready] and from [draft]); when the promise is
    fulfilled the status becomes [complete] and the artifact URL is stored;
    when it is rejected the status becomes [ready] and the project's
    [videoUrl] is what it was before the call. *)
Theorem handleRenderVideo_status_transitions
  (svc : Services) (a : App) (p : VideoProject) :
  currentProject a = Some p ->
  Project.scenes p <> [] ->
  exists a2 opts,
    handleRenderVideo_begin a = Some (a2, p, opts)
    /\ opt_scenes opts = Project.scenes p
    /\ statusOf a2 = Some rendering
    /\ videoUrlOf a2 = Project.videoUrl p
    /\ handleRenderVideo svc a
       = handleRenderVideo_settle p (renderVideo svc opts) a2
    /\ (forall url,
          statusOf (handleRenderVideo_settle p (Some url) a2) = Some complete
          /\ videoUrlOf (handleRenderVideo_settle p (Some url) a2) = Some url)
    /\ statusOf (handleRenderVideo_settle p None a2) = Some ready
    /\ videoUrlOf (handleRenderVideo_settle p None a2) = Project.videoUrl p.
Proof.
  intros Hp Hne.
  unfold handleRenderVideo, handleRenderVideo_begin. rewrite Hp.
  destruct (Project.scenes p) as [|s l] eqn:Hs; [congruence|]. cbn [List.length Nat.eqb].
  assert (Hp1 : currentProject (setGenerating true a) = Some p) by exact Hp.
  rewrite (updateProject_own p _ _ Hp1).
  eexists. eexists. split; [reflexivity|].
  repeat split.
  - unfold handleRenderVideo_settle, updateProject. cbn.
    now rewrite String.eqb_refl.
  - unfold handleRenderVideo_settle, updateProject. cbn.
    now rewrite String.eqb_refl.
  - unfold handleRenderVideo_settle, updateProject. cbn.
    now rewrite String.eqb_refl.
  - unfold handleRenderVideo_settle, updateProject. cbn.
    now rewrite String.eqb_refl.
Qed.

Lemma handleRenderVideo_status_transitions_witness :
  exists a2 opts,
    handleRenderVideo_begin (Demo.app Demo.project)
    = Some (a2, Demo.project, opts)
    /\ statusOf a2 = Some rendering
    /\ statusOf (handleRenderVideo Demo.services (Demo.app Demo.project))
       = Some complete
    /\ statusOf (handleRenderVideo_settle Demo.project None a2) = Some ready.
Proof.
  destruct (handleRenderVideo_status_transitions Demo.services
              (Demo.app Demo.project) Demo.project eq_refl)
    as (a2 & opts & Hb & _ & Hr & _ & Hrun & Hok & Hko & _);
    [discriminate|].
  exists a2, opts.
  split; [exact Hb|]. split; [exact Hr|]. split; [|exact Hko].
  rewrite Hrun. exact (proj1 (Hok "blob:video"%string)).
Defined.

(** C5.  A call of [handleRenderVideo] on a project without scenes returns
    at the guard: [renderVideo] is not called, no artifact is obtained, and
    the component (so the project and its status) is left as it was. *)
Theorem handleRenderVideo_empty_rejected
  (svc : Services) (a : App) (p : VideoProject) :
  currentProject a = Some p ->
  Project.scenes p = [] ->
  handleRenderVideo_begin a = None
  /\ renderedArtifact svc a = None
  /\ handleRenderVideo svc a = a
  /\ statusOf (handleRenderVideo svc a) = Some (Project.status p).
Proof.
  intros Hp Hs.
  assert (Hb : handleRenderVideo_begin a = None).
  { unfold handleRenderVideo_begin. now rewrite Hp, Hs. }
  unfold renderedArtifact, handleRenderVideo. rewrite Hb.
  repeat split. unfold statusOf. now rewrite Hp.
Qed.

Lemma handleRenderVideo_empty_rejected_witness :
  handleRenderVideo Demo.services (Demo.app Demo.emptyProject)
  = Demo.app Demo.emptyProject.
Proof.
  apply (handleRenderVideo_empty_rejected Demo.services
           (Demo.app Demo.emptyProject) Demo.emptyProject);
    reflexivity.
Defined.

(** ** Download *)

(** C9.  When the project has an artifact, [handleDownload] clicks an
    anchor that points to it and suggests the file name "<title>.webm", or
    "video.webm" when the title is empty. *)
Theorem handleDownload_filename (a : App) (p : VideoProject) (url : string) :
  currentProject a = Some p ->
  Project.videoUrl p = Some url ->
  url <> EmptyString ->
  handleDownload a
  = Some (mkAnchor url
            (String.append
               (if String.eqb (Project.title p) EmptyString
                then "video"%string else Project.title p)
               ".webm")).
Proof.
  intros Hp Hu Hne. unfold handleDownload. rewrite Hp, Hu.
  assert (Ht : truthy url = true).
  { unfold truthy. destruct (String.eqb_spec url EmptyString); [contradiction | reflexivity]. }
  rewrite Ht. unfold or_else, truthy.
  now destruct (String.eqb (Project.title p) EmptyString).
Qed.

Lemma handleDownload_filename_witness :
  handleDownload (Demo.app Demo.untitled)
  = Some (mkAnchor "blob:video" "video.webm").
Proof.
  apply (handleDownload_filename (Demo.app Demo.untitled) Demo.untitled
           "blob:video" eq_refl eq_refl).
  discriminate.
Defined.

(** ** Scene generation *)

Lemma generateOne_scenes (svc : Services) (p : VideoProject) (sty top : string)
  (i : nat) (ps : ParsedScene) (a : App) :
  currentProject a = Some p ->
  exists q,
    currentProject (generateOne svc (Project.id p) sty top i ps a) = Some q
    /\ Project.id q = Project.id p
    /\ Project.scenes q
       = Project.scenes p ++ generatedScenes svc sty top (drawn a) i [ps]
    /\ drawn (generateOne svc (Project.id p) sty top i ps a) = S (drawn a)
    /\ Project.status q = Project.status p
    /\ Project.videoUrl q = Project.videoUrl p.
Proof.
  intros Hp. unfold generateOne, draw, addScene. cbn [generatedScenes].
  destruct (generateImage svc i _ sty); cbn; rewrite Hp, String.eqb_refl;
    eexists; repeat split.
Qed.

Lemma generateLoop_scenes (svc : Services) (sty top : string)
  (rest : list ParsedScene) :
  forall (i : nat) (p : VideoProject) (a : App),
    currentProject a = Some p ->
    scenesOf (generateLoop svc (Project.id p) sty top i rest a)
    = Project.scenes p ++ generatedScenes svc sty top (drawn a) i rest.
Proof.
  induction rest as [|ps rest IH]; intros i p a Hp.
  - cbn. unfold scenesOf. rewrite Hp. now rewrite app_nil_r.
  - cbn [generateLoop].
    destruct (generateOne_scenes svc p sty top i ps a Hp)
      as (q & Hq & Hid & Hsc & Hdr & _).
    pose proof (IH (S i) q _ Hq) as Hrest. rewrite Hid in Hrest.
    rewrite Hrest, Hsc, Hdr. cbn [generatedScenes].
    now rewrite <- app_assoc.
Qed.

(** What [handleGenerateScenes] leaves in the project. *)
Lemma handleGenerateScenes_scenes (svc : Services) (a : App)
  (p : VideoProject) (src : string) :
  currentProject a = Some p ->
  Project.script p = Some src ->
  src <> EmptyString ->
  scenesOf (handleGenerateScenes svc a)
  = generatedScenes svc (Project.style p) (topic a) (drawn a) 0
      (parseScriptToScenes svc src).
Proof.
  intros Hp Hsrc Hne. unfold handleGenerateScenes. rewrite Hp, Hsrc.
  assert (Ht : truthy src = true).
  { unfold truthy. destruct (String.eqb_spec src EmptyString); [contradiction | reflexivity]. }
  rewrite Ht.
  assert (Hp1 : currentProject (setGenerating true a) = Some p) by exact Hp.
  rewrite (updateProject_own p _ _ Hp1).
  change (scenesOf (setTimeout_step scenes 500 ?x)) with (scenesOf x).
  set (q := mergeProject p (patchScenes [])).
  change (Project.id p) with (Project.id q).
  change (Project.style p) with (Project.style q).
  rewrite (generateLoop_scenes svc _ _ _ 0 q); reflexivity.
Qed.

Lemma generatedScenes_length (svc : Services) (sty top : string)
  (rest : list ParsedScene) :
  forall n i, List.length (generatedScenes svc sty top n i rest) = List.length rest.
Proof.
  induction rest as [|ps rest IH]; intros n i; cbn; [reflexivity|].
  now rewrite IH.
Qed.

Lemma generatedScenes_text (svc : Services) (sty top : string)
  (rest : list ParsedScene) :
  forall n i,
    map Scene.text (generatedScenes svc sty top n i rest) = map parsed_text rest.
Proof.
  induction rest as [|ps rest IH]; intros n i; cbn; [reflexivity|].
  now rewrite IH.
Qed.

Lemma generatedScenes_duration (svc : Services) (sty top : string)
  (rest : list ParsedScene) :
  forall n i,
    map Scene.duration (generatedScenes svc sty top n i rest)
    = map parsed_duration rest.
Proof.
  induction rest as [|ps rest IH]; intros n i; cbn; [reflexivity|].
  now rewrite IH.
Qed.


Lemma totalDuration_from (l : list VideoScene) :
  forall acc,
    fold_left (fun acc s => acc + Scene.duration s) l acc
    = acc + fold_right Z.add 0 (map Scene.duration l).
Proof.
  induction l as [|s l IH]; intros acc; cbn; [lia|].
  rewrite IH. lia.
Qed.

Lemma totalDuration_sum (l : list VideoScene) :
  totalDuration l = fold_right Z.add 0 (map Scene.duration l).
Proof. unfold totalDuration. now rewrite totalDuration_from. Qed.

Lemma generateOne_result (svc : Services) (p : VideoProject) (sty top : string)
  (i : nat) (ps : ParsedScene) (a : App) :
  currentProject a = Some p ->
  generateOne svc (Project.id p) sty top i ps a
  = mkApp (Some (mergeProject p
                   (patchScenes
                      (Project.scenes p
                       ++ generatedScenes svc sty top (drawn a) i [ps]))))
          (isGenerating a) (currentStep a) (topic a) (S (drawn a)) (timers a).
Proof.
  intros Hp. unfold generateOne, draw, addScene. cbn [generatedScenes].
  destruct (generateImage svc i _ sty); cbn; rewrite Hp, String.eqb_refl;
    reflexivity.
Qed.

Lemma generateLoop_result (svc : Services) (sty top : string)
  (rest : list ParsedScene) :
  forall (i : nat) (p : VideoProject) (a : App),
    currentProject a = Some p ->
    generateLoop svc (Project.id p) sty top i rest a
    = mkApp (Some (mergeProject p
                     (patchScenes
                        (Project.scenes p
                         ++ generatedScenes svc sty top (drawn a) i rest))))
            (isGenerating a) (currentStep a) (topic a)
            (drawn a + List.length rest) (timers a).
Proof.
  induction rest as [|ps rest IH]; intros i p a Hp.
  - cbn. rewrite app_nil_r, Nat.add_0_r.
    destruct a as [cp g st tp d tm]. cbn in Hp |- *. subst cp.
    now destruct p.
  - cbn [generateLoop]. rewrite (generateOne_result svc p sty top i ps a Hp).
    match goal with
    | |- generateLoop _ _ _ _ _ _ (mkApp (Some ?q) ?g ?st ?tp ?d ?tm) = _ =>
        change (Project.id p) with (Project.id q);
        rewrite (IH (S i) q (mkApp (Some q) g st tp d tm) eq_refl)
    end.
    cbn. rewrite <- app_assoc, Nat.add_succ_r. reflexivity.
Qed.

Lemma handleRenderVideo_result (svc : Services) (a : App) (p : VideoProject) :
  currentProject a = Some p ->
  Project.scenes p <> [] ->
  handleRenderVideo svc a
  = match renderVideo svc (mkOptions (Project.scenes p) (Project.style p)
                                     (Project.musicTrack p)) with
    | Some url =>
        mkApp (Some (Project.mk (Project.id p) (Project.title p)
                       (Project.script p) (Project.style p) (Project.scenes p)
                       (Project.voiceType p) (Project.musicTrack p) (Some url)
                       complete))
              true (currentStep a) (topic a) (drawn a)
              (timers a ++ [(500, preview)])
    | None =>
        mkApp (Some (Project.mk (Project.id p) (Project.title p)
                       (Project.script p) (Project.style p) (Project.scenes p)
                       (Project.voiceType p) (Project.musicTrack p)
                       (Project.videoUrl p) ready))
              false (currentStep a) (topic a) (drawn a) (timers a)
    end.
Proof.
  intros Hp Hne. unfold handleRenderVideo, handleRenderVideo_begin.
  rewrite Hp.
  assert (Hlen : (List.length (Project.scenes p) =? 0)%nat = false).
  { destruct (Project.scenes p); [congruence | reflexivity]. }
  rewrite Hlen.
  assert (Hp1 : currentProject (setGenerating true a) = Some p) by exact Hp.
  rewrite (updateProject_own p _ _ Hp1).
  unfold handleRenderVideo_settle, updateProject.
  destruct (renderVideo svc _); cbn; rewrite String.eqb_refl; reflexivity.
Qed.



(** C10.  [handleGenerateScenes] on a project with a script empties the
    scene list and then appends one scene per parsed segment, in parse
    order: afterwards there are as many scenes as segments, with the
    segments' texts and durations, whatever the image requests settled to;
    the scenes the project had before play no part in the result. *)
Theorem handleGenerateScenes_replaces_scenes
  (svc : Services) (a : App) (p : VideoProject) (src : string) :
  currentProject a = Some p ->
  Project.script p = Some src ->
  src <> EmptyString ->
  let segments := parseScriptToScenes svc src in
  let after := scenesOf (handleGenerateScenes svc a) in
  List.length after = List.length segments
  /\ map Scene.text after = map parsed_text segments
  /\ map Scene.duration after = map parsed_duration segments
  /\ after
     = scenesOf (handleGenerateScenes svc
                   (withProject (Some (mergeProject p (patchScenes []))) a)).
Proof.
  intros Hp Hsrc Hne segments after. subst segments after.
  rewrite (handleGenerateScenes_scenes svc a p src Hp Hsrc Hne).
  split; [apply generatedScenes_length|].
  split; [apply generatedScenes_text|].
  split; [apply generatedScenes_duration|].
  symmetry.
  apply (handleGenerateScenes_scenes svc
           (withProject (Some (mergeProject p (patchScenes []))) a)
           (mergeProject p (patchScenes [])) src); auto.
Qed.

Lemma handleGenerateScenes_replaces_scenes_witness :
  List.length (scenesOf (handleGenerateScenes Demo.services (Demo.app Demo.project)))
  = 2%nat.
Proof.
  refine (proj1 (handleGenerateScenes_replaces_scenes Demo.services
                   (Demo.app Demo.project) Demo.project "one. two."
                   eq_refl eq_refl _)).
  discriminate.
Defined.



(** ** The scene editor *)

(** The duration field stores the number it is given. *)
Lemma durationChange_stores_value (a : App) (p : VideoProject)
  (s : VideoScene) (value : Z) :
  currentProject a = Some p ->
  Project.scenes p = [s] ->
  map Scene.duration (scenesOf (durationChange (Scene.id s) value a)) = [value].
Proof.
  intros Hp Hs. unfold durationChange, updateScene, scenesOf.
  rewrite Hp, String.eqb_refl. cbn. rewrite Hs. cbn.
  now rewrite String.eqb_refl.
Qed.

(** A scene made by the "Add Scene" button lasts five seconds. *)
Lemma addSceneClick_duration (svc : Services) (a : App) (p : VideoProject) :
  currentProject a = Some p ->
  map Scene.duration (scenesOf (addSceneClick svc a))
  = map Scene.duration (Project.scenes p) ++ [5]
  /\ withinBounds 5 = true.
Proof.
  intros Hp. unfold addSceneClick, draw. rewrite Hp.
  split; [|reflexivity].
  match goal with
  | |- context [addScene _ ?s ?a1] =>
      rewrite (addScene_own p s a1 eq_refl)
  end.
  now rewrite map_app.
Qed.

(** C8.  Typing 100 into the duration field of a scene stores a duration
    of 100 seconds, outside the bounds the field declares; so does the 1
    that is typed on the way to 12. *)
Theorem durationChange_stores_unclamped :
  map Scene.duration
      (scenesOf (durationChange "s1" 100 (Demo.app Demo.untitled))) = [100]
  /\ withinBounds 100 = false
  /\ map Scene.duration
         (scenesOf (durationChange "s1" 1 (Demo.app Demo.untitled))) = [1]
  /\ withinBounds 1 = false.
Proof. repeat split. Qed.

(** ** The voiced preview *)

Lemma timerDelay_nonneg (ms : Z) : 0 <= timerDelay ms.
Proof. unfold timerDelay. lia. Qed.

(** A delay that fits a signed 32-bit integer is waited in full. *)
Lemma timerDelay_exact (ms : Z) :
  0 <= ms <= 2147483647 -> timerDelay ms = ms.
Proof.
  intros H. unfold timerDelay, toInt32.
  rewrite Z.mod_small by lia. lia.
Qed.

Lemma timerDelay_lower (ms : Z) : ms <= 2147483647 -> ms <= timerDelay ms.
Proof.
  intros H. destruct (Z.lt_ge_cases ms 0) as [Hneg|Hpos].
  - pose proof (timerDelay_nonneg ms). lia.
  - rewrite timerDelay_exact; lia.
Qed.

Lemma skipn_cons_inv {A : Type} (k : nat) :
  forall (l : list A) (x : A) (r : list A),
    skipn k l = x :: r ->
    nth_error l k = Some x /\ skipn (S k) l = r /\ (k < List.length l)%nat.
Proof.
  induction k as [|k IH]; intros l x r H.
  - destruct l as [|y l]; [discriminate|]. cbn in H. injection H as -> ->.
    cbn. repeat split. lia.
  - destruct l as [|y l]; [discriminate|]. cbn [skipn] in H.
    destruct (IH l x r H) as (Hn & Hs & Hl).
    cbn [nth_error List.length]. repeat split; [exact Hn | exact Hs | lia].
Qed.

Lemma skipn_nil_inv {A : Type} (k : nat) (l : list A) :
  skipn k l = [] -> (List.length l <= k)%nat.
Proof.
  intros H. pose proof (length_skipn k l) as Hl. rewrite H in Hl.
  cbn in Hl. lia.
Qed.

Section SequencerFacts.

Variable svc : Services.

(** Past the last scene [playScene] stops the preview. *)
Lemma playScene_end (p : VideoProject) (k : nat) (m : Player) :
  (List.length (Project.scenes p) <= k)%nat ->
  playScene svc p k m = setCurrentSceneIndex 0 (setIsPlaying false m).
Proof.
  intros H. unfold playScene.
  now destruct (Nat.leb_spec (List.length (Project.scenes p)) k); [|lia].
Qed.

(** On a scene, with nothing else in flight, [playScene] puts the scene on
    display, starts its narration and waits for it. *)
Lemma playScene_scene (p : VideoProject) (k : nat) (sc : VideoScene)
  (m : Player) :
  nth_error (Project.scenes p) k = Some sc ->
  queue m = [] ->
  playScene svc p k m
  = mkPlayer (now m) (isPlaying m) k (previewIntervalRef m) (nextHandle m)
      [mkPending (now m + Z.of_N (speakMs svc (Scene.text sc) (Project.voiceType p)))
                 None (AfterSpeak p k sc)]
      (frames m)
      (sounds m ++ [(now m, Spoken (Scene.text sc) (Project.voiceType p))]).
Proof.
  intros Hk Hq. unfold playScene.
  assert (Hlt : (k < List.length (Project.scenes p))%nat).
  { apply nth_error_Some. congruence. }
  destruct (Nat.leb_spec (List.length (Project.scenes p)) k); [lia|].
  rewrite Hk. unfold speakText, silence, heard, setCurrentSceneIndex, withQueue.
  cbn. rewrite Hq. reflexivity.
Qed.

(** Nothing the preview runs writes [previewIntervalRef]. *)
Lemma previewIntervalRef_exec (t : Task) (m : Player) :
  previewIntervalRef (exec svc t m) = previewIntervalRef m.
Proof.
  destruct t as [p k sc | p k]; cbn [exec]; [reflexivity|].
  unfold playScene.
  destruct (List.length (Project.scenes p) <=? k)%nat; [reflexivity|].
  now destruct (nth_error (Project.scenes p) k).
Qed.

Lemma previewIntervalRef_handlePlayPreview (current : option VideoProject)
  (m : Player) :
  previewIntervalRef (handlePlayPreview svc current m) = previewIntervalRef m.
Proof.
  unfold handlePlayPreview. destruct current as [p|]; [|reflexivity].
  destruct (List.length (Project.scenes p) =? 0)%nat; [reflexivity|].
  destruct (isPlaying m).
  - cbn [previewIntervalRef speechSynthesis_cancel heard silence withQueue
           setIsPlaying].
    destruct (previewIntervalRef m) eqn:E; cbn; exact E.
  - exact (previewIntervalRef_exec (PlayScene p 0)
             (setCurrentSceneIndex 0 (setIsPlaying true m))).
Qed.

Lemma run_cons (fuel : nat) (m : Player) (x : Pending) (q : list Pending) :
  queue m = x :: q ->
  run svc (S fuel) m
  = run svc fuel (commit (exec svc (task x) (withQueue q (withNow (due x) m)))).
Proof. intros H. cbn [run]. unfold step. now rewrite H. Qed.

Lemma run_idle (fuel : nat) (m : Player) :
  queue m = [] -> run svc fuel m = m.
Proof.
  intros H. destruct fuel; [reflexivity|]. cbn [run]. unfold step.
  now rewrite H.
Qed.

(** The preview left alone from [playScene(k)] on: the commits are those of
    [traversal], and the event loop comes to rest with the preview
    stopped. *)
Lemma run_playScene (p : VideoProject) (rest : list VideoScene) :
  forall (k : nat) (m : Player) (fuel : nat),
    skipn k (Project.scenes p) = rest ->
    queue m = [] ->
    isPlaying m = true ->
    (2 * List.length rest <= fuel)%nat ->
    let r := run svc fuel (commit (playScene svc p k m)) in
    frames r = frames m ++ traversal svc (Project.voiceType p) (now m) k rest
    /\ isPlaying r = false
    /\ currentSceneIndex r = 0%nat
    /\ queue r = [].
Proof.
  induction rest as [|sc rest IH]; intros k m fuel Hk Hq Hplay Hfuel r; subst r.
  - apply skipn_nil_inv in Hk. rewrite (playScene_end p k m Hk).
    rewrite run_idle by (cbn; exact Hq).
    cbn. repeat split. exact Hq.
  - destruct (skipn_cons_inv k _ _ _ Hk) as (Hnth & Hrest & _).
    rewrite (playScene_scene p k sc m Hnth Hq).
    destruct fuel as [|[|fuel]]; [cbn in Hfuel; lia | cbn in Hfuel; lia |].
    erewrite run_cons by reflexivity. cbn [task due exec].
    erewrite run_cons by reflexivity. cbn [task due exec].
    rewrite Nat.add_1_r.
    match goal with
    | |- context [run svc fuel (commit (playScene svc p (S k) ?m1))] =>
        destruct (IH (S k) m1 fuel Hrest eq_refl Hplay) as (Hf & Hp & Hi & Hq');
          [cbn [List.length] in Hfuel; lia|];
          rewrite Hf, Hp, Hi, Hq'
    end.
    cbn. rewrite Hplay. rewrite <- !app_assoc. repeat split.
Qed.

End SequencerFacts.

(** *** Reading a traversal *)

Section TraversalFacts.

Variable svc : Services.
Variable v : VoiceType.

Lemma traversal_head (rest : list VideoScene) (t : Z) (k : nat) :
  exists b j tl, traversal svc v t k rest = mkFrame t b j :: tl.
Proof. destruct rest; cbn; eauto. Qed.

Lemma dwell_cons (i : nat) (f f' : Frame) (tl : list Frame) :
  dwell i (f :: f' :: tl)
  = (if shows i f then at_ms f' - at_ms f else 0) + dwell i (f' :: tl).
Proof. reflexivity. Qed.

Lemma dwell_traversal_before (rest : list VideoScene) :
  forall (t : Z) (k i : nat),
    (i < k)%nat -> dwell i (traversal svc v t k rest) = 0.
Proof.
  induction rest as [|sc rest IH]; intros t k i Hlt; [reflexivity|].
  cbn [traversal].
  set (t1 := t + Z.of_N (speakMs svc (Scene.text sc) v)).
  set (t2 := t1 + timerDelay (Scene.duration sc * 1000)).
  destruct (traversal_head rest t2 (S k)) as (b & j & tl & Htl).
  pose proof (IH t2 (S k) i ltac:(lia)) as Hrest.
  rewrite Htl in Hrest |- *.
  rewrite !dwell_cons, Hrest. unfold shows. cbn [playing index at_ms].
  destruct (Nat.eqb_spec k i); [lia|]. reflexivity.
Qed.

Lemma dwell_traversal (rest : list VideoScene) :
  forall (t : Z) (k j : nat) (sc : VideoScene),
    nth_error rest j = Some sc ->
    dwell (k + j) (traversal svc v t k rest)
    = Z.of_N (speakMs svc (Scene.text sc) v)
      + timerDelay (Scene.duration sc * 1000).
Proof.
  induction rest as [|sc0 rest IH]; intros t k j sc Hj.
  - destruct j; discriminate.
  - cbn [traversal].
    set (t1 := t + Z.of_N (speakMs svc (Scene.text sc0) v)).
    set (t2 := t1 + timerDelay (Scene.duration sc0 * 1000)).
    destruct (traversal_head rest t2 (S k)) as (b & i & tl & Htl).
    destruct j as [|j].
    + cbn in Hj. injection Hj as ->.
      pose proof (dwell_traversal_before rest t2 (S k) (k + 0) ltac:(lia)) as Hrest.
      rewrite Htl in Hrest |- *.
      rewrite !dwell_cons, Hrest. unfold shows. cbn [playing index at_ms].
      rewrite Nat.add_0_r, Nat.eqb_refl. cbn [andb].
      subst t1 t2. lia.
    + cbn [nth_error] in Hj.
      pose proof (IH t2 (S k) j sc Hj) as Hrest.
      replace (k + S j)%nat with (S k + j)%nat by lia.
      rewrite Htl in Hrest |- *.
      rewrite !dwell_cons, Hrest. unfold shows. cbn [playing index at_ms].
      destruct (Nat.eqb_spec k (S k + j)); [lia|]. cbn [andb].
      lia.
Qed.

Lemma visited_traversal (rest : list VideoScene) :
  forall (t : Z) (k : nat) (prev : option nat),
    prev <> Some k ->
    visitedFrom prev (traversal svc v t k rest) = seq k (List.length rest).
Proof.
  induction rest as [|sc rest IH]; intros t k prev Hprev; [reflexivity|].
  cbn [traversal visitedFrom shown playing index List.length seq].
  rewrite Nat.eqb_refl.
  rewrite IH by (intros H; injection H; lia).
  destruct prev as [j|]; [|reflexivity].
  destruct (Nat.eqb_spec k j); [congruence | reflexivity].
Qed.

Lemma traversal_chronological (rest : list VideoScene) :
  forall (t : Z) (k : nat), chronological (traversal svc v t k rest).
Proof.
  induction rest as [|sc rest IH]; intros t k; [exact I|].
  cbn [traversal].
  set (t1 := t + Z.of_N (speakMs svc (Scene.text sc) v)).
  set (t2 := t1 + timerDelay (Scene.duration sc * 1000)).
  pose proof (IH t2 (S k)) as Hrest.
  destruct (traversal_head rest t2 (S k)) as (b & j & tl & Htl).
  rewrite Htl in Hrest |- *.
  pose proof (timerDelay_nonneg (Scene.duration sc * 1000)).
  cbn [chronological at_ms]. repeat split; [subst t1; lia | subst t2; lia |].
  exact Hrest.
Qed.

Lemma currentAt_cons (f f' : Frame) (tl : list Frame) (t : Z) (i : nat) :
  currentAt (f :: f' :: tl) t i
  = ((shown f = Some i /\ at_ms f <= t < at_ms f') \/ currentAt (f' :: tl) t i).
Proof. reflexivity. Qed.

Lemma currentAt_traversal_range (rest : list VideoScene) :
  forall (t : Z) (k : nat) (x : Z) (i : nat),
    currentAt (traversal svc v t k rest) x i ->
    (k <= i < k + List.length rest)%nat.
Proof.
  induction rest as [|sc rest IH]; intros t k x i H; [contradiction|].
  cbn [traversal] in H.
  set (t1 := t + Z.of_N (speakMs svc (Scene.text sc) v)) in H.
  set (t2 := t1 + timerDelay (Scene.duration sc * 1000)) in H.
  pose proof (IH t2 (S k) x i) as Hrest.
  destruct (traversal_head rest t2 (S k)) as (b & j & tl & Htl).
  rewrite Htl in H, Hrest.
  rewrite !currentAt_cons in H. cbn [shown playing index] in H.
  cbn [List.length].
  destruct H as [[He _] | [[He _] | H]].
  - injection He as <-. lia.
  - injection He as <-. lia.
  - specialize (Hrest H). lia.
Qed.

End TraversalFacts.

(** A frame in force at [t] was committed by [t]. *)
Lemma currentAt_after (fs : list Frame) :
  forall (f : Frame) (tl : list Frame) (t : Z) (i : nat),
    fs = f :: tl -> chronological fs -> currentAt fs t i -> at_ms f <= t.
Proof.
  induction fs as [|f0 fs IH]; intros f tl t i Hfs Hc H; [discriminate|].
  injection Hfs as -> ->.
  destruct tl as [|f' tl]; [contradiction|].
  cbn [currentAt chronological] in H, Hc. destruct Hc as [Hle Hc].
  destruct H as [[_ Ht] | H]; [lia|].
  pose proof (IH f' tl t i eq_refl Hc H). lia.
Qed.

(** In a chronological record at most one scene is on display at any
    instant. *)
Lemma currentAt_unique (fs : list Frame) :
  forall (t : Z) (i j : nat),
    chronological fs -> currentAt fs t i -> currentAt fs t j -> i = j.
Proof.
  induction fs as [|f fs IH]; intros t i j Hc Hi Hj; [contradiction|].
  destruct fs as [|f' tl]; [contradiction|].
  cbn [currentAt chronological] in Hi, Hj, Hc. destruct Hc as [Hle Hc].
  destruct Hi as [[Hi Hti] | Hi]; destruct Hj as [[Hj Htj] | Hj].
  - congruence.
  - pose proof (currentAt_after _ f' tl t j eq_refl Hc Hj). lia.
  - pose proof (currentAt_after _ f' tl t i eq_refl Hc Hi). lia.
  - exact (IH t i j Hc Hi Hj).
Qed.

(** *** A preview left alone *)

Lemma previewRun_traversal (svc : Services) (p : VideoProject) (m : Player)
  (fuel : nat) :
  Project.scenes p <> [] ->
  queue m = [] ->
  isPlaying m = false ->
  (2 * List.length (Project.scenes p) <= fuel)%nat ->
  let r := previewRun svc p m fuel in
  since m r = traversal svc (Project.voiceType p) (now m) 0 (Project.scenes p)
  /\ isPlaying r = false
  /\ currentSceneIndex r = 0%nat
  /\ queue r = [].
Proof.
  intros Hne Hq Hidle Hfuel. unfold previewRun, handlePlayPreview, since.
  destruct (Nat.eqb_spec (List.length (Project.scenes p)) 0) as [H0|_].
  { destruct (Project.scenes p); [congruence | discriminate]. }
  rewrite Hidle.
  destruct (run_playScene svc p (Project.scenes p) 0
              (setCurrentSceneIndex 0 (setIsPlaying true m)) fuel
              eq_refl Hq eq_refl Hfuel) as (Hf & Hrest).
  split; [|exact Hrest].
  rewrite Hf. cbn [frames setCurrentSceneIndex setIsPlaying now].
  rewrite skipn_app, skipn_all, Nat.sub_diag. reflexivity.
Qed.

(** X27.  A preview of [n >= 1] scenes, started when nothing is playing
    and nothing of an earlier preview is still queued, and then left alone,
    brings the scenes on display in list order 0, 1, ..., n-1; at any
    instant at most one scene is on display, and it is one of the list;
    with enough turns of the event loop (two per scene) the traversal ends,
    nothing is left to run, [isPlaying] is false and [currentSceneIndex]
    is 0. *)
Theorem preview_visits_in_order (svc : Services) (p : VideoProject)
  (m : Player) (fuel : nat) :
  Project.scenes p <> [] ->
  queue m = [] ->
  isPlaying m = false ->
  (2 * List.length (Project.scenes p) <= fuel)%nat ->
  let r := previewRun svc p m fuel in
  visited (since m r) = seq 0 (List.length (Project.scenes p))
  /\ (forall t i j,
        currentAt (since m r) t i -> currentAt (since m r) t j -> i = j)
  /\ (forall t i,
        currentAt (since m r) t i -> (i < List.length (Project.scenes p))%nat)
  /\ queue r = []
  /\ isPlaying r = false
  /\ currentSceneIndex r = 0%nat.
Proof.
  intros Hne Hq Hidle Hfuel r.
  destruct (previewRun_traversal svc p m fuel Hne Hq Hidle Hfuel)
    as (Hf & Hp & Hi & Hq').
  fold r in Hf, Hp, Hi, Hq'. rewrite Hf.
  split; [apply visited_traversal; discriminate|].
  split.
  { intros t i j. apply currentAt_unique, traversal_chronological. }
  split.
  { intros t i H. apply currentAt_traversal_range in H. lia. }
  auto.
Qed.

Lemma preview_visits_in_order_witness :
  visited (since (mounted 0) (previewRun Demo.services Demo.project (mounted 0) 6))
  = [0; 1; 2]%nat.
Proof.
  refine (proj1 (preview_visits_in_order Demo.services Demo.project
                   (mounted 0) 6 _ eq_refl eq_refl _)).
  - discriminate.
  - cbn. lia.
Defined.

(** C1, as the code has it.  In a preview started when nothing of an
    earlier preview is still queued, and then left alone, scene [i] stays
    on display for the time its narration takes plus the delay of its
    timer: the timer is started when the narration has completed, with the
    authored duration in milliseconds as its delay, which the browser takes
    as a signed 32-bit integer and counts as zero when negative.  So the
    scene is never on display for less than the narration time; for an
    authored duration of up to 2147483647 ms it is never on display for less
    than that duration, and when the duration is not negative either the
    time is exactly the sum of the two, not the larger of them. *)
Theorem dwell_is_narration_plus_duration (svc : Services) (p : VideoProject)
  (m : Player) (fuel : nat) (i : nat) (sc : VideoScene) :
  nth_error (Project.scenes p) i = Some sc ->
  queue m = [] ->
  isPlaying m = false ->
  (2 * List.length (Project.scenes p) <= fuel)%nat ->
  let narration := Z.of_N (speakMs svc (Scene.text sc) (Project.voiceType p)) in
  let authored := Scene.duration sc * 1000 in
  let d := dwell i (since m (previewRun svc p m fuel)) in
  d = narration + timerDelay authored
  /\ narration <= d
  /\ (authored <= 2147483647 -> authored <= d)
  /\ (0 <= authored <= 2147483647 -> d = narration + authored).
Proof.
  intros Hi Hq Hidle Hfuel narration authored d.
  assert (Hne : Project.scenes p <> []).
  { intros H. rewrite H in Hi. destruct i; discriminate. }
  destruct (previewRun_traversal svc p m fuel Hne Hq Hidle Hfuel) as (Hf & _).
  assert (Hd : d = narration + timerDelay authored).
  { subst d. rewrite Hf.
    exact (dwell_traversal svc (Project.voiceType p) (Project.scenes p)
             (now m) 0 i sc Hi). }
  pose proof (timerDelay_nonneg authored) as H0.
  split; [exact Hd|].
  split; [subst narration; lia|].
  split.
  - intros Hmax. pose proof (timerDelay_lower authored Hmax).
    subst narration. lia.
  - intros Hfit. rewrite Hd, (timerDelay_exact authored Hfit). reflexivity.
Qed.

Lemma dwell_is_narration_plus_duration_witness :
  dwell 1 (since (mounted 0)
             (previewRun Demo.services Demo.project (mounted 0) 6))
  = 8000 + 5000.
Proof.
  refine (proj2 (proj2 (proj2
            (dwell_is_narration_plus_duration Demo.services Demo.project
               (mounted 0) 6 1 (Demo.scene "s2" "two" 5)
               eq_refl eq_refl eq_refl _))) _).
  - cbn. lia.
  - cbn. lia.
Defined.

(** C1, as stated, fails: with durations 5, 5, 5 and an eight-second
    narration of the second scene, that scene stays 13 seconds, not the
    larger of 5 and 8. *)
Lemma dwell_is_not_max :
  map Scene.duration (Project.scenes Demo.project) = [5; 5; 5]
  /\ speakMs Demo.services "two" female = 8000%N
  /\ dwell 1 (since (mounted 0)
                (previewRun Demo.services Demo.project (mounted 0) 6))
     = 13000
  /\ dwell 1 (since (mounted 0)
                (previewRun Demo.services Demo.project (mounted 0) 6))
     <> Z.max (5 * 1000) 8000.
Proof. repeat split. discriminate. Qed.

(** *** The preview button *)

(** C7, as the code has it.  The button toggles.  Pressed while a preview
    is playing it clears [isPlaying], asks the speech engine to cancel and
    leaves [currentSceneIndex] alone.  Pressed while nothing is playing it
    starts a preview: [isPlaying] is set, [currentSceneIndex] is 0 and the
    narration of the first scene is requested.  It changes nothing only
    when there is no project or the project has no scene. *)
Theorem handlePlayPreview_toggle (svc : Services) (p : VideoProject)
  (m : Player) :
  let m' := handlePlayPreview svc (Some p) m in
  handlePlayPreview svc None m = m
  /\ (Project.scenes p = [] -> m' = m)
  /\ (Project.scenes p <> [] -> isPlaying m = true ->
      isPlaying m' = false
      /\ currentSceneIndex m' = currentSceneIndex m
      /\ sounds m' = sounds m ++ [(now m, Silenced)])
  /\ (Project.scenes p <> [] -> isPlaying m = false ->
      isPlaying m' = true
      /\ currentSceneIndex m' = 0%nat
      /\ exists sc,
           nth_error (Project.scenes p) 0 = Some sc
           /\ sounds m'
              = sounds m ++ [(now m, Spoken (Scene.text sc) (Project.voiceType p))]).
Proof.
  intros m'. subst m'. unfold handlePlayPreview.
  split; [reflexivity|].
  split; [intros H; now rewrite H|].
  split.
  - intros Hne Hplay.
    destruct (Project.scenes p) as [|sc l]; [congruence|].
    cbn [List.length Nat.eqb]. rewrite Hplay.
    destruct (previewIntervalRef _); repeat split.
  - intros Hne Hidle.
    destruct (Project.scenes p) as [|sc l] eqn:Hs; [congruence|].
    cbn [List.length Nat.eqb]. rewrite Hidle.
    unfold playScene. rewrite Hs. cbn [List.length Nat.leb nth_error].
    repeat split. exists sc. split; reflexivity.
Qed.

Lemma handlePlayPreview_toggle_witness :
  isPlaying (handlePlayPreview Demo.services (Some Demo.project) Demo.started)
  = false.
Proof.
  destruct (handlePlayPreview_toggle Demo.services Demo.project Demo.started)
    as (_ & _ & Hstop & _).
  refine (proj1 (Hstop _ eq_refl)). discriminate.
Defined.

(** C7, as stated, fails: pressed while nothing is playing the button does
    not leave the state alone, it starts a preview; and pressed twice in a
    row during a preview, the second press starts a new one. *)
Lemma preview_button_when_idle_starts :
  isPlaying (mounted 0) = false
  /\ isPlaying (handlePlayPreview Demo.services (Some Demo.project) (mounted 0))
     = true
  /\ isPlaying Demo.started = true
  /\ isPlaying (handlePlayPreview Demo.services (Some Demo.project)
                  (handlePlayPreview Demo.services (Some Demo.project)
                     Demo.started))
     = true.
Proof. repeat split. Qed.

(** C2.  A preview of three scenes is cancelled at 15 s, while the second
    scene's timer is running.  The press clears [isPlaying] and reaches the
    speech engine, but [previewIntervalRef] was never set, so no timer is
    cleared: [currentSceneIndex] stays 1, the timer is still queued, and at
    19 s [playScene(2)] runs, moves the index to 2 and starts the narration
    of the third scene. *)
Theorem cancel_leaves_traversal_running :
  isPlaying Demo.cancelled = false
  /\ In (15000, Silenced) (sounds Demo.cancelled)
  /\ previewIntervalRef Demo.started = None
  /\ currentSceneIndex Demo.cancelled = 1%nat
  /\ map task (queue Demo.cancelled) = [PlayScene Demo.project 2]
  /\ In (mkFrame 19000 false 2) (frames Demo.afterCancel)
  /\ In (19000, Spoken "three" female) (sounds Demo.afterCancel).
Proof.
  repeat split; vm_compute; auto 10.
Qed.

(** C4.  The preview of three scenes stopped at 15 s is started again at
    16 s.  The timer of the stopped traversal is still queued (nothing
    clears it, [previewIntervalRef] being never set), so two chains of
    [playScene] now run side by side: the scenes come on display in the
    order 0, 2, 1, each for 3 s only; at 25 s the old chain reaches the end
    of the list and clears [isPlaying] and the index while the new
    traversal is at scene 1, whose successor is then entered at 35 s with
    nothing on display. *)
Theorem restart_after_cancel_out_of_order :
  isPlaying Demo.cancelled = false
  /\ map task (queue Demo.cancelled) = [PlayScene Demo.project 2]
  /\ since Demo.cancelled Sample.afterRestart
     = [mkFrame 16000 true 0; mkFrame 17000 true 0;
        mkFrame 19000 true 2; mkFrame 20000 true 2;
        mkFrame 22000 true 1;
        mkFrame 25000 false 0; mkFrame 30000 false 0;
        mkFrame 35000 false 2; mkFrame 36000 false 2;
        mkFrame 41000 false 0]
  /\ visited (since Demo.cancelled Sample.afterRestart) = [0; 2; 1]%nat
  /\ visited (since Demo.cancelled Sample.afterRestart)
     <> seq 0 (List.length (Project.scenes Demo.project))
  /\ queue Sample.afterRestart = [].
Proof.
  repeat split; try reflexivity. vm_compute. discriminate.
Qed.

(** * The rest of the component: properties *)

(** ** Script generation *)

Lemma truthy_false (s : string) : truthy s = false <-> s = EmptyString.
Proof.
  unfold truthy. destruct (String.eqb_spec s EmptyString); cbn; split;
    congruence.
Qed.

Lemma trimStart_empty (s : string) :
  trimStart s = EmptyString <-> allWhiteSpace s = true.
Proof.
  induction s as [|c r IH]; cbn; [tauto|].
  destruct (isWhiteSpace c); cbn; [exact IH|]. split; discriminate.
Qed.

Lemma trimEnd_empty (s : string) :
  trimEnd s = EmptyString -> allWhiteSpace s = true.
Proof.
  induction s as [|c r IH]; cbn; [reflexivity|].
  destruct (trimEnd r); [|discriminate].
  destruct (isWhiteSpace c); [|discriminate].
  intros _. now rewrite IH.
Qed.

Lemma trimStart_head (s : string) :
  trimStart s = EmptyString
  \/ exists c r, trimStart s = String c r /\ isWhiteSpace c = false.
Proof.
  induction s as [|c r IH]; cbn; [now left|].
  destruct (isWhiteSpace c) eqn:E; [exact IH|]. right. eauto.
Qed.

(** [s.trim()] is empty exactly when [s] holds white space only. *)
Lemma trim_empty (s : string) :
  trim s = EmptyString <-> allWhiteSpace s = true.
Proof.
  unfold trim. split.
  - intros H. apply trimStart_empty.
    destruct (trimStart_head s) as [E | (c & r & E & Hc)]; [exact E|].
    rewrite E in H. apply trimEnd_empty in H. cbn in H.
    rewrite Hc in H. discriminate.
  - intros H. apply trimStart_empty in H. now rewrite H.
Qed.

(** X1.  [handleGenerateScript] does nothing at all, and does not call the
    script service, when the topic is empty or white space only, or when
    there is no project. *)
Theorem handleGenerateScript_guard
  (generateScript : string -> string -> Z -> option string)
  (form : ScriptForm) (a : App) :
  allWhiteSpace (topic a) = true \/ currentProject a = None ->
  handleGenerateScript generateScript form a = a.
Proof.
  intros [H | H]; unfold handleGenerateScript.
  - apply trim_empty in H. rewrite H. reflexivity.
  - rewrite H. now destruct (negb _).
Qed.

Lemma handleGenerateScript_guard_witness :
  handleGenerateScript Sample.writer Sample.form Sample.blank = Sample.blank.
Proof.
  apply (handleGenerateScript_guard Sample.writer Sample.form Sample.blank).
  left. reflexivity.
Defined.

(** What [handleGenerateScript] leaves when the script service answers. *)
Lemma handleGenerateScript_result
  (generateScript : string -> string -> Z -> option string)
  (form : ScriptForm) (a : App) (p : VideoProject) (generated : string) :
  allWhiteSpace (topic a) = false ->
  currentProject a = Some p ->
  generateScript (topic a) (scriptType form) (duration form) = Some generated ->
  handleGenerateScript generateScript form a
  = mkApp (Some (Project.mk (Project.id p) (topic a) (Some generated)
                   (Project.style p) (Project.scenes p) (Project.voiceType p)
                   (Project.musicTrack p) (Project.videoUrl p)
                   (Project.status p)))
          true (currentStep a) (topic a) (drawn a)
          (timers a ++ [(500, style)]).
Proof.
  intros Hw Hp Hg. unfold handleGenerateScript.
  assert (Ht : truthy (trim (topic a)) = true).
  { destruct (truthy (trim (topic a))) eqn:E; [reflexivity|].
    apply truthy_false, trim_empty in E. congruence. }
  rewrite Ht, Hp, Hg. cbn [negb].
  assert (Hp1 : currentProject (setGenerating true a) = Some p) by exact Hp.
  rewrite (updateProject_own p _ _ Hp1). reflexivity.
Qed.

(** X2.  When the script service answers, [handleGenerateScript] stores the
    script and makes the topic, as typed, the project's title; scenes,
    style, audio choices, artifact and status stay; the loading overlay
    stays on and the move to the style step waits for a 500 ms timer. *)
Theorem handleGenerateScript_stores_script
  (generateScript : string -> string -> Z -> option string)
  (form : ScriptForm) (a : App) (p : VideoProject) (generated : string) :
  allWhiteSpace (topic a) = false ->
  currentProject a = Some p ->
  generateScript (topic a) (scriptType form) (duration form) = Some generated ->
  let a' := handleGenerateScript generateScript form a in
  currentProject a'
  = Some (Project.mk (Project.id p) (topic a) (Some generated)
            (Project.style p) (Project.scenes p) (Project.voiceType p)
            (Project.musicTrack p) (Project.videoUrl p) (Project.status p))
  /\ isGenerating a' = true
  /\ currentStep a' = currentStep a
  /\ timers a' = timers a ++ [(500, style)]
  /\ currentStep (fire style a') = style
  /\ isGenerating (fire style a') = false.
Proof.
  intros Hw Hp Hg a'. subst a'.
  rewrite (handleGenerateScript_result generateScript form a p generated
             Hw Hp Hg).
  cbn. repeat split.
Qed.

Lemma handleGenerateScript_stores_script_witness :
  option_map Project.title
    (currentProject
       (handleGenerateScript Sample.writer Sample.form (Demo.app Demo.untitled)))
  = Some "launch day"%string.
Proof.
  pose proof (handleGenerateScript_stores_script Sample.writer Sample.form
                (Demo.app Demo.untitled) Demo.untitled "one. two."
                eq_refl eq_refl eq_refl) as H.
  cbv zeta in H. rewrite (proj1 H). reflexivity.
Defined.

(** X3.  When the script service fails, [handleGenerateScript] leaves the
    component as it found it, with the loading overlay off: project, step
    and timers are untouched. *)
Theorem handleGenerateScript_failure
  (generateScript : string -> string -> Z -> option string)
  (form : ScriptForm) (a : App) (p : VideoProject) :
  allWhiteSpace (topic a) = false ->
  currentProject a = Some p ->
  generateScript (topic a) (scriptType form) (duration form) = None ->
  handleGenerateScript generateScript form a = setGenerating false a.
Proof.
  intros Hw Hp Hg. unfold handleGenerateScript.
  assert (Ht : truthy (trim (topic a)) = true).
  { destruct (truthy (trim (topic a))) eqn:E; [reflexivity|].
    apply truthy_false, trim_empty in E. congruence. }
  rewrite Ht, Hp, Hg. reflexivity.
Qed.

Lemma handleGenerateScript_failure_witness :
  handleGenerateScript Sample.noWriter Sample.form (Demo.app Demo.project)
  = Demo.app Demo.project.
Proof.
  exact (handleGenerateScript_failure Sample.noWriter Sample.form
           (Demo.app Demo.project) Demo.project eq_refl eq_refl eq_refl).
Defined.

(** X4.  Script generation followed by scene generation: the scenes are
    those of the script just generated, one per parsed segment with the
    segment's text and duration, and the image prompts carry the topic. *)
Theorem script_then_scenes
  (svc : Services)
  (generateScript : string -> string -> Z -> option string)
  (form : ScriptForm) (a : App) (p : VideoProject) (generated : string) :
  allWhiteSpace (topic a) = false ->
  currentProject a = Some p ->
  generateScript (topic a) (scriptType form) (duration form) = Some generated ->
  generated <> EmptyString ->
  scenesOf (handleGenerateScenes svc
              (handleGenerateScript generateScript form a))
  = generatedScenes svc (Project.style p) (topic a) (drawn a) 0
      (parseScriptToScenes svc generated).
Proof.
  intros Hw Hp Hg Hne.
  rewrite (handleGenerateScript_result generateScript form a p generated
             Hw Hp Hg).
  match goal with
  | |- context [handleGenerateScenes svc (mkApp (Some ?q) ?g ?st ?tp ?d ?tm)] =>
      rewrite (handleGenerateScenes_scenes svc (mkApp (Some q) g st tp d tm)
                 q generated eq_refl eq_refl Hne)
  end.
  reflexivity.
Qed.

Lemma script_then_scenes_witness :
  map Scene.text
    (scenesOf (handleGenerateScenes Demo.services
                 (handleGenerateScript Sample.writer Sample.form
                    (Demo.app Demo.untitled))))
  = ["one"; "two"]%string.
Proof.
  rewrite (script_then_scenes Demo.services Sample.writer Sample.form
             (Demo.app Demo.untitled) Demo.untitled "one. two."
             eq_refl eq_refl eq_refl).
  - reflexivity.
  - discriminate.
Defined.

(** ** Scene generation, continued *)

(** X5.  Without a script (none, or an empty one) [handleGenerateScenes]
    returns at its guard: the scenes the project has are kept, the overlay
    is not switched on and nothing is drawn or scheduled. *)
Theorem handleGenerateScenes_without_script
  (svc : Services) (a : App) (p : VideoProject) :
  currentProject a = Some p ->
  Project.script p = None \/ Project.script p = Some EmptyString ->
  handleGenerateScenes svc a = a.
Proof.
  intros Hp [H | H]; unfold handleGenerateScenes; rewrite Hp, H; reflexivity.
Qed.

Lemma handleGenerateScenes_without_script_witness :
  scenesOf (handleGenerateScenes Demo.services (Demo.app Demo.untitled))
  = [Demo.scene "s1" "one" 5].
Proof.
  rewrite (handleGenerateScenes_without_script Demo.services
             (Demo.app Demo.untitled) Demo.untitled eq_refl).
  - reflexivity.
  - left. reflexivity.
Defined.

(** X6.  [handleGenerateScenes] on a project with a script changes the
    scene list only: id, title, script, style, audio choices, artifact URL
    and status stay as they were (a rendered project stays [complete] with
    its old artifact).  The new scenes carry the next identifiers drawn, one
    each; the overlay stays on and the move to the scenes step waits for a
    500 ms timer. *)
Theorem handleGenerateScenes_frame
  (svc : Services) (a : App) (p : VideoProject) (src : string) :
  currentProject a = Some p ->
  Project.script p = Some src ->
  src <> EmptyString ->
  let n := List.length (parseScriptToScenes svc src) in
  let a' := handleGenerateScenes svc a in
  settingsOf a' = settingsOf a
  /\ map Scene.id (scenesOf a') = map (randomUUID svc) (seq (drawn a) n)
  /\ drawn a' = (drawn a + n)%nat
  /\ isGenerating a' = true
  /\ currentStep a' = currentStep a
  /\ timers a' = timers a ++ [(500, scenes)].
Proof.
  intros Hp Hsrc Hne n a'. subst n a'. unfold handleGenerateScenes.
  rewrite Hp, Hsrc.
  assert (Ht : truthy src = true).
  { destruct (truthy src) eqn:E; [reflexivity|].
    apply truthy_false in E. contradiction. }
  rewrite Ht.
  assert (Hp1 : currentProject (setGenerating true a) = Some p) by exact Hp.
  rewrite (updateProject_own p _ _ Hp1).
  set (q := mergeProject p (patchScenes [])).
  change (Project.id p) with (Project.id q).
  rewrite (generateLoop_result svc _ _ _ 0 q
             (withProject (Some q) (setGenerating true a)) eq_refl).
  unfold settingsOf. rewrite Hp. cbn.
  repeat split.
  generalize (drawn a). generalize 0%nat.
  induction (parseScriptToScenes svc src) as [|ps l IH]; intros i d;
    cbn; [reflexivity|].
  now rewrite IH.
Qed.

Lemma handleGenerateScenes_frame_witness :
  map Scene.id
    (scenesOf (handleGenerateScenes Demo.services (Demo.app Sample.rendered)))
  = ["uuid-0"; "uuid-1"]%string
  /\ statusOf (handleGenerateScenes Demo.services (Demo.app Sample.rendered))
     = Some complete.
Proof.
  pose proof (handleGenerateScenes_frame Demo.services
                (Demo.app Sample.rendered) Sample.rendered "one. two."
                eq_refl eq_refl) as H.
  cbv zeta in H.
  destruct H as (Hs & Hid & _); [discriminate|].
  split; [exact Hid|].
  unfold statusOf. unfold settingsOf in Hs.
  destruct (currentProject (handleGenerateScenes Demo.services
                              (Demo.app Sample.rendered))) as [q|];
    [|discriminate].
  cbn in Hs |- *. injection Hs as _ _ _ _ _ _ _ ->. reflexivity.
Defined.

(** ** Image regeneration and the scene editor *)

Lemma updateScene_own (p : VideoProject) (sid : string) (u : Patch.ScenePatch)
  (a : App) :
  currentProject a = Some p ->
  updateScene (Project.id p) sid u a
  = withProject
      (Some (mergeProject p
               (patchScenes
                  (map (fun s => if String.eqb (Scene.id s) sid
                                 then mergeScene s u else s)
                       (Project.scenes p))))) a.
Proof.
  intros Hp. unfold updateScene. rewrite Hp.
  now rewrite String.eqb_refl.
Qed.

Lemma addSceneClick_result (svc : Services) (a : App) (p : VideoProject) :
  currentProject a = Some p ->
  addSceneClick svc a
  = mkApp (Some (mergeProject p
                   (patchScenes
                      (Project.scenes p
                       ++ [Scene.mk (randomUUID svc (drawn a))
                                    "New scene text..." None 5 None]))))
          (isGenerating a) (currentStep a) (topic a) (S (drawn a)) (timers a).
Proof.
  intros Hp. unfold addSceneClick, draw, addScene. rewrite Hp. cbn.
  now rewrite String.eqb_refl.
Qed.

Lemma filter_absent (sid : string) (l : list VideoScene) :
  ~ In sid (map Scene.id l) ->
  filter (fun s => negb (String.eqb (Scene.id s) sid)) l = l.
Proof.
  induction l as [|s l IH]; intros H; [reflexivity|].
  cbn in H |- *.
  destruct (String.eqb_spec (Scene.id s) sid) as [E|E]; cbn.
  - exfalso. apply H. now left.
  - rewrite IH; [reflexivity|]. intros Hin. apply H. now right.
Qed.

(** X7.  When the image request fails, [handleRegenerateImage] leaves the
    project as it was (the scene keeps the image it had) and switches the
    loading overlay off. *)
Theorem handleRegenerateImage_failure
  (svc : Services) (sid text : string) (a : App) (p : VideoProject) :
  currentProject a = Some p ->
  generateImage svc 0 text (Project.style p) = None ->
  handleRegenerateImage svc sid text a = setGenerating false a.
Proof.
  intros Hp Hg. unfold handleRegenerateImage. rewrite Hp, Hg. reflexivity.
Qed.

Lemma handleRegenerateImage_failure_witness :
  scenesOf (handleRegenerateImage Sample.noImages "s2" "two"
              (Demo.app Demo.project))
  = Project.scenes Demo.project.
Proof.
  rewrite (handleRegenerateImage_failure Sample.noImages "s2" "two"
             (Demo.app Demo.project) Demo.project eq_refl eq_refl).
  reflexivity.
Defined.

(** X8.  When the image request succeeds, [handleRegenerateImage] gives the
    new image to the scene with the given id and to no other; ids, texts,
    durations and the order of the scenes stay, and the overlay is off
    again.  The prompt is the text handed in, in the project's style. *)
Theorem handleRegenerateImage_success
  (svc : Services) (sid text : string) (a : App) (p : VideoProject)
  (url : string) :
  currentProject a = Some p ->
  generateImage svc 0 text (Project.style p) = Some url ->
  let after := scenesOf (handleRegenerateImage svc sid text a) in
  map Scene.id after = map Scene.id (Project.scenes p)
  /\ map Scene.text after = map Scene.text (Project.scenes p)
  /\ map Scene.duration after = map Scene.duration (Project.scenes p)
  /\ map Scene.imageUrl after
     = map (fun s => if String.eqb (Scene.id s) sid
                     then Some url else Scene.imageUrl s)
           (Project.scenes p)
  /\ isGenerating (handleRegenerateImage svc sid text a) = false.
Proof.
  intros Hp Hg after. subst after. unfold handleRegenerateImage.
  rewrite Hp, Hg.
  assert (Hp1 : currentProject (setGenerating true a) = Some p) by exact Hp.
  rewrite (updateScene_own p sid _ _ Hp1). cbn.
  rewrite !map_map.
  repeat split; apply map_ext; intros s;
    destruct (String.eqb (Scene.id s) sid); reflexivity.
Qed.

Lemma handleRegenerateImage_success_witness :
  map Scene.imageUrl
    (scenesOf (handleRegenerateImage Demo.services "s2" "two"
                 (Demo.app Demo.project)))
  = [Some "blob:image"; Some "blob:image"; Some "blob:image"]%string.
Proof.
  pose proof (handleRegenerateImage_success Demo.services "s2" "two"
                (Demo.app Demo.project) Demo.project "blob:image"
                eq_refl eq_refl) as H.
  cbv zeta in H. destruct H as (_ & _ & _ & H & _).
  rewrite H. reflexivity.
Defined.

(** X9.  Editing a scene's duration or text keeps the number, the ids and
    the order of the scenes; the duration field changes the duration of the
    scenes with that id and nothing else, the text area their text and
    nothing else. *)
Theorem scene_edits_keep_shape
  (sid : string) (value : Z) (newText : string) (a : App) (p : VideoProject) :
  currentProject a = Some p ->
  let byDuration := scenesOf (durationChange sid value a) in
  let byText := scenesOf (textChange sid newText a) in
  map Scene.id byDuration = map Scene.id (Project.scenes p)
  /\ map Scene.text byDuration = map Scene.text (Project.scenes p)
  /\ map Scene.imageUrl byDuration = map Scene.imageUrl (Project.scenes p)
  /\ map Scene.duration byDuration
     = map (fun s => if String.eqb (Scene.id s) sid
                     then value else Scene.duration s)
           (Project.scenes p)
  /\ map Scene.id byText = map Scene.id (Project.scenes p)
  /\ map Scene.duration byText = map Scene.duration (Project.scenes p)
  /\ map Scene.imageUrl byText = map Scene.imageUrl (Project.scenes p)
  /\ map Scene.text byText
     = map (fun s => if String.eqb (Scene.id s) sid
                     then newText else Scene.text s)
           (Project.scenes p).
Proof.
  intros Hp byDuration byText. subst byDuration byText.
  unfold durationChange, textChange. rewrite Hp.
  rewrite !(updateScene_own p sid _ _ Hp). cbn.
  rewrite !map_map.
  repeat split; apply map_ext; intros s;
    destruct (String.eqb (Scene.id s) sid); reflexivity.
Qed.

Lemma scene_edits_keep_shape_witness :
  map Scene.duration (scenesOf (durationChange "s2" 9 (Demo.app Demo.project)))
  = [5; 9; 5].
Proof.
  pose proof (scene_edits_keep_shape "s2" 9 "" (Demo.app Demo.project)
                Demo.project eq_refl) as H.
  cbv zeta in H. destruct H as (_ & _ & _ & H & _).
  rewrite H. reflexivity.
Defined.

(** X10.  The bin button removes every scene with the given id and no
    other, the rest keeping their order; an id no scene has removes
    nothing; when ids are distinct exactly one scene goes. *)
Theorem deleteScene_removes (sid : string) (a : App) (p : VideoProject) :
  currentProject a = Some p ->
  let after := scenesOf (deleteScene sid a) in
  after = filter (fun s => negb (String.eqb (Scene.id s) sid)) (Project.scenes p)
  /\ ~ In sid (map Scene.id after)
  /\ (~ In sid (map Scene.id (Project.scenes p)) -> after = Project.scenes p)
  /\ (NoDup (map Scene.id (Project.scenes p)) ->
      In sid (map Scene.id (Project.scenes p)) ->
      S (List.length after) = List.length (Project.scenes p)).
Proof.
  intros Hp after.
  assert (Hafter : after
                   = filter (fun s => negb (String.eqb (Scene.id s) sid))
                            (Project.scenes p)).
  { subst after. unfold deleteScene. rewrite Hp.
    now rewrite (updateProject_own p _ _ Hp). }
  split; [exact Hafter|]. rewrite Hafter. clear Hafter after.
  split.
  { intros H. apply in_map_iff in H. destruct H as (s & Hid & Hin).
    apply filter_In in Hin. destruct Hin as [_ Hneq].
    rewrite Hid, String.eqb_refl in Hneq. discriminate. }
  split; [apply filter_absent|].
  induction (Project.scenes p) as [|s l IH]; intros Hnd Hin; [contradiction|].
  cbn in Hnd, Hin |- *. inversion Hnd as [|x xs Hx Hnd' E]; subst.
  destruct (String.eqb_spec (Scene.id s) sid) as [E|E]; cbn.
  - subst sid. now rewrite (filter_absent _ _ Hx).
  - destruct Hin as [Hin|Hin]; [contradiction|].
    now rewrite (IH Hnd' Hin).
Qed.

Lemma deleteScene_removes_witness :
  map Scene.id (scenesOf (deleteScene "s2" (Demo.app Demo.project)))
  = ["s1"; "s3"]%string.
Proof.
  pose proof (deleteScene_removes "s2" (Demo.app Demo.project) Demo.project
                eq_refl) as H.
  cbv zeta in H. rewrite (proj1 H). reflexivity.
Defined.

(** X11.  "Add Scene" puts a five-second scene with the placeholder text
    and no image at the end of the list, under the next identifier drawn;
    the scenes before it are untouched and the Duration figure of the
    render step grows by five. *)
Theorem addSceneClick_appends (svc : Services) (a : App) (p : VideoProject) :
  currentProject a = Some p ->
  scenesOf (addSceneClick svc a)
  = Project.scenes p
    ++ [Scene.mk (randomUUID svc (drawn a)) "New scene text..." None 5 None]
  /\ totalDuration (scenesOf (addSceneClick svc a))
     = totalDuration (Project.scenes p) + 5
  /\ drawn (addSceneClick svc a) = S (drawn a).
Proof.
  intros Hp. rewrite (addSceneClick_result svc a p Hp). cbn.
  repeat split.
  unfold totalDuration. rewrite fold_left_app. reflexivity.
Qed.

Lemma addSceneClick_appends_witness :
  totalDuration (scenesOf (addSceneClick Demo.services (Demo.app Demo.project)))
  = 20.
Proof.
  rewrite (proj1 (proj2 (addSceneClick_appends Demo.services
                           (Demo.app Demo.project) Demo.project eq_refl))).
  reflexivity.
Defined.

(** X12.  Adding a scene and deleting it again gives back the scene list,
    provided the identifier drawn for it is not the id of an older
    scene. *)
Theorem add_then_delete (svc : Services) (a : App) (p : VideoProject) :
  currentProject a = Some p ->
  ~ In (randomUUID svc (drawn a)) (map Scene.id (Project.scenes p)) ->
  scenesOf (deleteScene (randomUUID svc (drawn a)) (addSceneClick svc a))
  = Project.scenes p.
Proof.
  intros Hp Hfresh. rewrite (addSceneClick_result svc a p Hp).
  unfold deleteScene. cbn [currentProject].
  match goal with
  | |- scenesOf (updateProject _ ?u (mkApp (Some ?q) ?g ?st ?tp ?d ?tm)) = _ =>
      rewrite (updateProject_own q u (mkApp (Some q) g st tp d tm) eq_refl)
  end.
  cbn. rewrite filter_app.
  transitivity (Project.scenes p ++ []); [|apply app_nil_r].
  apply f_equal2; [exact (filter_absent _ _ Hfresh)|].
  cbn. now rewrite String.eqb_refl.
Qed.

Lemma add_then_delete_witness :
  scenesOf (deleteScene "uuid-0"
              (addSceneClick Demo.services (Demo.app Demo.project)))
  = Project.scenes Demo.project.
Proof.
  apply (add_then_delete Demo.services (Demo.app Demo.project) Demo.project
           eq_refl).
  cbn. intros [H | [H | [H | []]]]; discriminate.
Defined.

(** X13.  No scene edit touches anything but the scene list: after a text
    or duration change, a deletion, "Add Scene" or an image regeneration
    the project has the id, title, script, style, audio choices, artifact
    URL and status it had. *)
Theorem scene_edits_frame
  (svc : Services) (sid text : string) (value : Z) (a : App)
  (p : VideoProject) :
  currentProject a = Some p ->
  settingsOf (textChange sid text a) = settingsOf a
  /\ settingsOf (durationChange sid value a) = settingsOf a
  /\ settingsOf (deleteScene sid a) = settingsOf a
  /\ settingsOf (addSceneClick svc a) = settingsOf a
  /\ settingsOf (handleRegenerateImage svc sid text a) = settingsOf a.
Proof.
  intros Hp.
  assert (Hp1 : currentProject (setGenerating true a) = Some p) by exact Hp.
  unfold textChange, durationChange, deleteScene, handleRegenerateImage.
  rewrite (addSceneClick_result svc a p Hp), Hp.
  rewrite !(updateScene_own p sid _ _ Hp), (updateProject_own p _ _ Hp).
  unfold settingsOf. rewrite Hp. cbn. repeat split.
  destruct (generateImage svc 0 text (Project.style p)).
  - rewrite (updateScene_own p sid _ _ Hp1). reflexivity.
  - cbn. now rewrite Hp.
Qed.

Lemma scene_edits_frame_witness :
  statusOf (deleteScene "s1" (Demo.app Sample.rendered)) = Some complete
  /\ videoUrlOf (deleteScene "s1" (Demo.app Sample.rendered))
     = Some "blob:old"%string.
Proof.
  pose proof (scene_edits_frame Demo.services "s1" "" 0
                (Demo.app Sample.rendered) Sample.rendered eq_refl) as H.
  destruct H as (_ & _ & H & _).
  unfold statusOf, videoUrlOf. unfold settingsOf in H.
  destruct (currentProject (deleteScene "s1" (Demo.app Sample.rendered)))
    as [q|]; [|discriminate].
  cbn in H |- *. injection H as _ _ _ _ _ _ -> ->. split; reflexivity.
Defined.

(** ** The step bar *)

Lemma getStepIndex_table :
  getStepIndex script = 0 /\ getStepIndex style = 1 /\ getStepIndex scenes = 2
  /\ getStepIndex audio = 3 /\ getStepIndex render = 4
  /\ getStepIndex preview = 5.
Proof. repeat split. Qed.

(** X14.  Every step is listed ([getStepIndex] never answers -1, and tells
    the steps apart), and the step bar only goes back: a click on a step at
    or before the current one goes there, a click on a later step changes
    nothing, which is also when its button is disabled.  The project is not
    touched. *)
Theorem stepClick_never_forward (target : Step) (a : App) :
  let a' := stepClick target a in
  0 <= getStepIndex target <= 5
  /\ (forall s, getStepIndex s = getStepIndex target -> s = target)
  /\ getStepIndex (currentStep a') <= getStepIndex (currentStep a)
  /\ (getStepIndex target <= getStepIndex (currentStep a) ->
      currentStep a' = target /\ stepDisabled target a = false)
  /\ (getStepIndex (currentStep a) < getStepIndex target ->
      a' = a /\ stepDisabled target a = true)
  /\ currentProject a' = currentProject a.
Proof.
  intros a'. subst a'.
  destruct getStepIndex_table as (H0 & H1 & H2 & H3 & H4 & H5).
  split; [destruct target; rewrite ?H0, ?H1, ?H2, ?H3, ?H4, ?H5; lia|].
  split.
  { intros s. destruct s, target;
      rewrite ?H0, ?H1, ?H2, ?H3, ?H4, ?H5; intros E;
      first [reflexivity | discriminate E]. }
  unfold stepClick, stepDisabled.
  destruct (Z.leb_spec (getStepIndex target) (getStepIndex (currentStep a)))
    as [Hle|Hgt].
  - cbn [currentStep setCurrentStep currentProject].
    split; [exact Hle|]. split.
    + intros _. split; [reflexivity|]. apply Z.ltb_ge. exact Hle.
    + split; [intros Hlt; lia | reflexivity].
  - split; [lia|]. split; [intros Hle; lia|]. split; [|reflexivity].
    intros _. split; [reflexivity|]. apply Z.ltb_lt. exact Hgt.
Qed.

Lemma stepClick_never_forward_witness :
  currentStep (stepClick script (Demo.app Demo.project)) = script
  /\ stepClick preview (Demo.app Demo.project) = Demo.app Demo.project.
Proof.
  destruct (stepClick_never_forward script (Demo.app Demo.project))
    as (_ & _ & _ & Hback & _).
  destruct (stepClick_never_forward preview (Demo.app Demo.project))
    as (_ & _ & _ & _ & Hfwd & _).
  split.
  - refine (proj1 (Hback _)). vm_compute. discriminate.
  - refine (proj1 (Hfwd _)). reflexivity.
Defined.

(** ** Rendering and download, continued *)

(** X15.  Whenever the "Render Video" button is enabled a click on it
    starts a render; the button is disabled while [renderVideo] works; a
    failed render enables it again at once, a successful one only when the
    500 ms timer fires and moves to the preview step. *)
Theorem render_button_single_flight (a : App) :
  renderDisabled a = false ->
  exists a2 p opts,
    handleRenderVideo_begin a = Some (a2, p, opts)
    /\ renderDisabled a2 = true
    /\ renderDisabled (handleRenderVideo_settle p None a2) = false
    /\ forall url,
         renderDisabled (handleRenderVideo_settle p (Some url) a2) = true
         /\ renderDisabled (fire preview (handleRenderVideo_settle p (Some url) a2))
            = false
         /\ currentStep (fire preview (handleRenderVideo_settle p (Some url) a2))
            = preview.
Proof.
  unfold renderDisabled, handleRenderVideo_begin. intros H.
  apply orb_false_iff in H. destruct H as [Hg Hs].
  destruct (currentProject a) as [p|] eqn:Hp; [|discriminate].
  rewrite Hs.
  assert (Hp1 : currentProject (setGenerating true a) = Some p) by exact Hp.
  rewrite (updateProject_own p _ _ Hp1).
  eexists. eexists. eexists. split; [reflexivity|].
  unfold handleRenderVideo_settle, updateProject. cbn.
  rewrite String.eqb_refl. cbn. rewrite Hs. repeat split.
Qed.

Lemma render_button_single_flight_witness :
  exists a2 p opts,
    handleRenderVideo_begin (Demo.app Demo.project) = Some (a2, p, opts)
    /\ renderDisabled a2 = true.
Proof.
  destruct (render_button_single_flight (Demo.app Demo.project) eq_refl)
    as (a2 & p & opts & Hb & Hd & _).
  exists a2, p, opts. split; assumption.
Defined.

(** X16.  After a render that fails on a project rendered before, the
    status is [ready] but the earlier artifact is still stored, and
    [handleDownload] still offers it. *)
Theorem failed_rerender_keeps_old_artifact
  (svc : Services) (a : App) (p : VideoProject) (old : string) :
  currentProject a = Some p ->
  Project.scenes p <> [] ->
  Project.videoUrl p = Some old ->
  old <> EmptyString ->
  renderVideo svc (mkOptions (Project.scenes p) (Project.style p)
                             (Project.musicTrack p)) = None ->
  statusOf (handleRenderVideo svc a) = Some ready
  /\ handleDownload (handleRenderVideo svc a)
     = Some (mkAnchor old
               (String.append (or_else (Project.title p) "video") ".webm")).
Proof.
  intros Hp Hne Hold Hnz Hfail.
  rewrite (handleRenderVideo_result svc a p Hp Hne), Hfail.
  split; [reflexivity|].
  unfold handleDownload. cbn. rewrite Hold.
  destruct (truthy old) eqn:E; [reflexivity|].
  apply truthy_false in E. contradiction.
Qed.

Lemma failed_rerender_keeps_old_artifact_witness :
  handleDownload (handleRenderVideo Demo.brokenRenderer (Demo.app Sample.rendered))
  = Some (mkAnchor "blob:old" "Launch.webm").
Proof.
  refine (proj2 (failed_rerender_keeps_old_artifact Demo.brokenRenderer
                   (Demo.app Sample.rendered) Sample.rendered "blob:old"
                   eq_refl _ eq_refl _ eq_refl)); discriminate.
Defined.

(** X17.  A successful render followed by a download: the status is
    [complete] and the anchor points to the artifact just rendered, under
    the title's file name; if the renderer resolved to an empty URL there
    is nothing to download although the status is [complete]. *)
Theorem render_then_download
  (svc : Services) (a : App) (p : VideoProject) (url : string) :
  currentProject a = Some p ->
  Project.scenes p <> [] ->
  renderVideo svc (mkOptions (Project.scenes p) (Project.style p)
                             (Project.musicTrack p)) = Some url ->
  statusOf (handleRenderVideo svc a) = Some complete
  /\ handleDownload (handleRenderVideo svc a)
     = if String.eqb url EmptyString then None
       else Some (mkAnchor url
                    (String.append (or_else (Project.title p) "video") ".webm")).
Proof.
  intros Hp Hne Hok.
  rewrite (handleRenderVideo_result svc a p Hp Hne), Hok.
  split; [reflexivity|].
  unfold handleDownload, truthy. cbn.
  now destruct (String.eqb url EmptyString).
Qed.

Lemma render_then_download_witness :
  handleDownload (handleRenderVideo Demo.services (Demo.app Demo.project))
  = Some (mkAnchor "blob:video" "Launch.webm").
Proof.
  refine (proj2 (render_then_download Demo.services (Demo.app Demo.project)
                   Demo.project "blob:video" eq_refl _ eq_refl)).
  discriminate.
Defined.

(** X18.  [handleDownload] clicks no anchor exactly when there is no
    artifact URL: no project, a null [videoUrl], or an empty one. *)
Theorem handleDownload_nothing (a : App) :
  handleDownload a = None
  <-> (videoUrlOf a = None \/ videoUrlOf a = Some EmptyString).
Proof.
  unfold handleDownload, videoUrlOf.
  destruct (currentProject a) as [p|]; [|tauto].
  destruct (Project.videoUrl p) as [url|]; [|tauto].
  destruct (truthy url) eqn:E.
  - split; [discriminate|]. intros [H|H]; [discriminate|].
    injection H as ->. discriminate.
  - apply truthy_false in E. subst url. tauto.
Qed.

(** ** The voiced preview, continued *)

Section NarrationFacts.

Variable svc : Services.

(** The preview left alone from [playScene(k)] on, whether or not
    [isPlaying] is still set: what is asked of the speech engine, when the
    event loop comes to rest, and in what state. *)
Lemma run_playScene_log (p : VideoProject) (rest : list VideoScene) :
  forall (k : nat) (m : Player) (fuel : nat),
    skipn k (Project.scenes p) = rest ->
    queue m = [] ->
    (2 * List.length rest <= fuel)%nat ->
    let r := run svc fuel (commit (playScene svc p k m)) in
    sounds r = sounds m ++ narration svc (Project.voiceType p) (now m) rest
    /\ now r = now m + previewLength svc (Project.voiceType p) rest
    /\ queue r = []
    /\ isPlaying r = false
    /\ currentSceneIndex r = 0%nat
    /\ previewIntervalRef r = previewIntervalRef m.
Proof.
  induction rest as [|sc rest IH]; intros k m fuel Hk Hq Hfuel r; subst r.
  - apply skipn_nil_inv in Hk. rewrite (playScene_end svc p k m Hk).
    rewrite run_idle by (cbn; exact Hq).
    cbn. rewrite app_nil_r, Z.add_0_r. repeat split. exact Hq.
  - destruct (skipn_cons_inv k _ _ _ Hk) as (Hnth & Hrest & _).
    rewrite (playScene_scene svc p k sc m Hnth Hq).
    destruct fuel as [|[|fuel]]; [cbn in Hfuel; lia | cbn in Hfuel; lia |].
    erewrite run_cons by reflexivity. cbn [task due exec].
    erewrite run_cons by reflexivity. cbn [task due exec].
    rewrite Nat.add_1_r.
    match goal with
    | |- context [run svc fuel (commit (playScene svc p (S k) ?m1))] =>
        destruct (IH (S k) m1 fuel Hrest eq_refl)
          as (Hs & Hn & Hq' & Hp & Hi & Hr);
          [cbn [List.length] in Hfuel; lia|];
          rewrite Hs, Hn, Hq', Hp, Hi, Hr
    end.
    cbn. rewrite <- !app_assoc. repeat split. lia.
Qed.

Lemma narration_texts (v : VoiceType) (rest : list VideoScene) :
  forall t,
    map snd (narration svc v t rest)
    = map (fun sc => Spoken (Scene.text sc) v) rest.
Proof.
  induction rest as [|sc rest IH]; intros t; cbn; [reflexivity|].
  now rewrite IH.
Qed.

Lemma previewLength_nonneg (v : VoiceType) (rest : list VideoScene) :
  0 <= previewLength svc v rest.
Proof.
  induction rest as [|sc rest IH]; cbn [previewLength]; [lia|].
  pose proof (timerDelay_nonneg (Scene.duration sc * 1000)). lia.
Qed.

Lemma previewLength_lower (v : VoiceType) (rest : list VideoScene) :
  Forall (fun sc => Scene.duration sc * 1000 <= 2147483647) rest ->
  1000 * fold_right Z.add 0 (map Scene.duration rest)
  <= previewLength svc v rest.
Proof.
  induction 1 as [|sc rest Hsc Hrest IH]; cbn [previewLength map fold_right];
    [lia|].
  pose proof (timerDelay_lower _ Hsc). lia.
Qed.

Lemma previewRun_log (p : VideoProject) (m : Player) (fuel : nat) :
  Project.scenes p <> [] ->
  queue m = [] ->
  isPlaying m = false ->
  (2 * List.length (Project.scenes p) <= fuel)%nat ->
  let r := previewRun svc p m fuel in
  sounds r
  = sounds m ++ narration svc (Project.voiceType p) (now m) (Project.scenes p)
  /\ now r = now m + previewLength svc (Project.voiceType p) (Project.scenes p)
  /\ queue r = []
  /\ isPlaying r = false
  /\ currentSceneIndex r = 0%nat
  /\ previewIntervalRef r = previewIntervalRef m.
Proof.
  intros Hne Hq Hidle Hfuel. unfold previewRun, handlePlayPreview.
  destruct (Nat.eqb_spec (List.length (Project.scenes p)) 0) as [H0|_].
  { destruct (Project.scenes p); [congruence | discriminate]. }
  rewrite Hidle.
  exact (run_playScene_log p (Project.scenes p) 0
           (setCurrentSceneIndex 0 (setIsPlaying true m)) fuel
           eq_refl Hq Hfuel).
Qed.

End NarrationFacts.

(** X19.  A preview left alone asks the speech engine for each scene's
    text exactly once, in list order, in the project's voice, at the moment
    the scene comes on display, and never cancels speech. *)
Theorem preview_narrates_each_scene_once
  (svc : Services) (p : VideoProject) (m : Player) (fuel : nat) :
  Project.scenes p <> [] ->
  queue m = [] ->
  isPlaying m = false ->
  (2 * List.length (Project.scenes p) <= fuel)%nat ->
  let said := narration svc (Project.voiceType p) (now m) (Project.scenes p) in
  sounds (previewRun svc p m fuel) = sounds m ++ said
  /\ map snd said
     = map (fun sc => Spoken (Scene.text sc) (Project.voiceType p))
           (Project.scenes p).
Proof.
  intros Hne Hq Hidle Hfuel said.
  split; [|apply narration_texts].
  exact (proj1 (previewRun_log svc p m fuel Hne Hq Hidle Hfuel)).
Qed.

Lemma preview_narrates_each_scene_once_witness :
  sounds (previewRun Demo.services Demo.project (mounted 0) 6)
  = [(0, Spoken "one" female); (6000, Spoken "two" female);
     (19000, Spoken "three" female)].
Proof.
  rewrite (proj1 (preview_narrates_each_scene_once Demo.services Demo.project
                    (mounted 0) 6 ltac:(discriminate) eq_refl eq_refl
                    ltac:(cbn; lia))).
  reflexivity.
Defined.

(** X20.  A preview started when nothing is queued and left alone stops
    after the narration times and the timer delays of all scenes, added up
    (a delay is the authored duration in milliseconds as a signed 32-bit
    integer, a negative one counting as zero).  When every authored
    duration is at most 2147483647 ms, it never ends before the Duration
    figure the render step shows for the project. *)
Theorem preview_length
  (svc : Services) (p : VideoProject) (m : Player) (fuel : nat) :
  Project.scenes p <> [] ->
  queue m = [] ->
  isPlaying m = false ->
  (2 * List.length (Project.scenes p) <= fuel)%nat ->
  now (previewRun svc p m fuel)
  = now m + previewLength svc (Project.voiceType p) (Project.scenes p)
  /\ now m <= now (previewRun svc p m fuel)
  /\ (Forall (fun sc => Scene.duration sc * 1000 <= 2147483647)
             (Project.scenes p) ->
      now m + 1000 * totalDuration (Project.scenes p)
      <= now (previewRun svc p m fuel)).
Proof.
  intros Hne Hq Hidle Hfuel.
  destruct (previewRun_log svc p m fuel Hne Hq Hidle Hfuel) as (_ & Hn & _).
  split; [exact Hn|]. rewrite Hn. split.
  - pose proof (previewLength_nonneg svc (Project.voiceType p)
                  (Project.scenes p)). lia.
  - intros Hfit. rewrite totalDuration_sum.
    pose proof (previewLength_lower svc (Project.voiceType p)
                  (Project.scenes p) Hfit). lia.
Qed.

Lemma preview_length_witness :
  now (previewRun Demo.services Demo.project (mounted 0) 6) = 25000
  /\ 0 + 1000 * totalDuration (Project.scenes Demo.project)
     <= now (previewRun Demo.services Demo.project (mounted 0) 6).
Proof.
  destruct (preview_length Demo.services Demo.project (mounted 0) 6
              ltac:(discriminate) eq_refl eq_refl ltac:(cbn; lia))
    as (Hn & _ & Hlow).
  split.
  - rewrite Hn. reflexivity.
  - apply Hlow. repeat constructor; vm_compute; discriminate.
Defined.

(** X21.  A press of the button while a scene's timer is running stops
    nothing that is queued: the timer stays in the queue, and when the
    event loop goes on every remaining scene is still narrated, from the
    timer's due time, before the index returns to 0. *)
Theorem cancel_keeps_timer
  (svc : Services) (p : VideoProject) (m : Player) (k : nat) (t : Z)
  (h : option nat) (fuel : nat) :
  Project.scenes p <> [] ->
  isPlaying m = true ->
  previewIntervalRef m = None ->
  queue m = [mkPending t h (PlayScene p k)] ->
  (1 + 2 * List.length (skipn k (Project.scenes p)) <= fuel)%nat ->
  let c := handlePlayPreview svc (Some p) m in
  let r := run svc fuel (commit c) in
  isPlaying c = false
  /\ queue c = queue m
  /\ sounds r
     = sounds m ++ (now m, Silenced)
         :: narration svc (Project.voiceType p) t (skipn k (Project.scenes p))
  /\ queue r = []
  /\ isPlaying r = false
  /\ currentSceneIndex r = 0%nat.
Proof.
  intros Hne Hplay Href Hq Hfuel c r. subst r c.
  unfold handlePlayPreview.
  destruct (Nat.eqb_spec (List.length (Project.scenes p)) 0) as [H0|_].
  { destruct (Project.scenes p); [congruence | discriminate]. }
  rewrite Hplay.
  destruct m as [t0 pl ix ref nh q fs ss].
  cbn in Hplay, Href, Hq. subst pl ref q. cbn.
  split; [reflexivity|]. split; [reflexivity|].
  destruct fuel as [|fuel]; [lia|].
  erewrite run_cons by reflexivity. cbn [task due exec].
  match goal with
  | |- context [run svc fuel (commit (playScene svc p k ?m1))] =>
      destruct (run_playScene_log svc p (skipn k (Project.scenes p)) k m1 fuel
                  eq_refl eq_refl)
        as (Hs & _ & Hq' & Hp' & Hi & _); [lia|];
        rewrite Hs, Hq', Hp', Hi
  end.
  cbn. rewrite <- app_assoc. repeat split.
Qed.

Lemma cancel_keeps_timer_witness :
  sounds (run Demo.services 100
            (commit (handlePlayPreview Demo.services (Some Demo.project)
                       Sample.waiting)))
  = sounds Sample.waiting
    ++ [(15000, Silenced); (19000, Spoken "three" female)].
Proof.
  pose proof (cancel_keeps_timer Demo.services Demo.project Sample.waiting
                2 19000 (Some 2%nat) 100
                ltac:(discriminate) eq_refl eq_refl eq_refl
                ltac:(cbn; lia)) as H.
  cbv zeta in H. destruct H as (_ & _ & H & _).
  rewrite H. reflexivity.
Defined.

Section RefFacts.

Variable svc : Services.

Lemma previewIntervalRef_step (m m' : Player) :
  step svc m = Some m' -> previewIntervalRef m' = previewIntervalRef m.
Proof.
  unfold step. destruct (queue m) as [|x q]; [discriminate|].
  intros H. injection H as <-.
  cbn [commit previewIntervalRef].
  now rewrite previewIntervalRef_exec.
Qed.

Lemma previewIntervalRef_run (fuel : nat) :
  forall m, previewIntervalRef (run svc fuel m) = previewIntervalRef m.
Proof.
  induction fuel as [|fuel IH]; intros m; cbn [run]; [reflexivity|].
  destruct (step svc m) as [m'|] eqn:E; [|reflexivity].
  rewrite IH. exact (previewIntervalRef_step m m' E).
Qed.

Lemma previewIntervalRef_runUntil (t : Z) (fuel : nat) :
  forall m, previewIntervalRef (runUntil svc t fuel m) = previewIntervalRef m.
Proof.
  induction fuel as [|fuel IH]; intros m; cbn [runUntil]; [reflexivity|].
  destruct (queue m) as [|x q]; [reflexivity|].
  destruct (due x <=? t); [|reflexivity].
  destruct (step svc m) as [m'|] eqn:E; [|reflexivity].
  rewrite IH. exact (previewIntervalRef_step m m' E).
Qed.

Lemma previewIntervalRef_click (current : option VideoProject) (t : Z)
  (fuel : nat) (m : Player) :
  previewIntervalRef (click svc current t fuel m) = previewIntervalRef m.
Proof.
  unfold click. cbn [commit previewIntervalRef].
  rewrite previewIntervalRef_handlePlayPreview.
  cbn [withNow previewIntervalRef].
  apply previewIntervalRef_runUntil.
Qed.

End RefFacts.

(** X22.  [previewIntervalRef] is never assigned: whatever projects the
    button is pressed with, whenever, and however long the event loop runs,
    the ref still holds the [null] it was created with, so the
    [clearInterval] of the cancel branch is never reached. *)
Theorem previewIntervalRef_never_set
  (svc : Services) (fuel fuel' : nat)
  (presses : list (option VideoProject * Z)) (t0 : Z) :
  previewIntervalRef (run svc fuel' (session svc fuel presses (mounted t0)))
  = None.
Proof.
  rewrite previewIntervalRef_run.
  change None with (previewIntervalRef (mounted t0)).
  generalize (mounted t0).
  induction presses as [|[current t] rest IH]; intros m; cbn [session];
    [reflexivity|].
  rewrite IH. apply previewIntervalRef_click.
Qed.

(** X23.  The voice picked on the audio step is the voice of the next
    preview: after a click on a voice button, a preview of the stored
    project asks for every scene's text in that voice. *)
Theorem voice_choice_reaches_preview
  (svc : Services) (voice : VoiceType) (a : App) (p : VideoProject)
  (m : Player) (fuel : nat) :
  currentProject a = Some p ->
  Project.scenes p <> [] ->
  queue m = [] ->
  isPlaying m = false ->
  (2 * List.length (Project.scenes p) <= fuel)%nat ->
  exists q,
    currentProject (voiceClick voice a) = Some q
    /\ Project.scenes q = Project.scenes p
    /\ map snd (skipn (List.length (sounds m))
                      (sounds (previewRun svc q m fuel)))
       = map (fun sc => Spoken (Scene.text sc) voice) (Project.scenes p).
Proof.
  intros Hp Hne Hq Hidle Hfuel. unfold voiceClick. rewrite Hp.
  rewrite (updateProject_own p _ _ Hp).
  eexists. split; [reflexivity|]. split; [reflexivity|].
  match goal with
  | |- context [previewRun svc ?q m fuel] =>
      destruct (previewRun_log svc q m fuel Hne Hq Hidle Hfuel) as (Hs & _);
        rewrite Hs
  end.
  rewrite skipn_app, skipn_all, Nat.sub_diag. cbn [skipn app].
  apply narration_texts.
Qed.

Lemma voice_choice_reaches_preview_witness :
  exists q,
    currentProject (voiceClick male (Demo.app Demo.project)) = Some q
    /\ map snd (sounds (previewRun Demo.services q (mounted 0) 6))
       = [Spoken "one" male; Spoken "two" male; Spoken "three" male].
Proof.
  destruct (voice_choice_reaches_preview Demo.services male
              (Demo.app Demo.project) Demo.project (mounted 0) 6
              eq_refl ltac:(discriminate) eq_refl eq_refl ltac:(cbn; lia))
    as (q & Hq & _ & Hs).
  exists q. split; [exact Hq|]. exact Hs.
Defined.

(** X24.  A preview that has run to its end can be replayed: a later press
    of the button starts again from the first scene and narrates all scenes
    once more, and the component comes to rest as after the first run. *)
Theorem preview_replay
  (svc : Services) (p : VideoProject) (m : Player) (t : Z) (fuel : nat) :
  Project.scenes p <> [] ->
  queue m = [] ->
  isPlaying m = false ->
  (2 * List.length (Project.scenes p) <= fuel)%nat ->
  now (previewRun svc p m fuel) <= t ->
  let first := previewRun svc p m fuel in
  let again := run svc fuel (click svc (Some p) t fuel first) in
  sounds again
  = sounds m
    ++ narration svc (Project.voiceType p) (now m) (Project.scenes p)
    ++ narration svc (Project.voiceType p) t (Project.scenes p)
  /\ queue again = []
  /\ isPlaying again = false
  /\ currentSceneIndex again = 0%nat.
Proof.
  intros Hne Hq Hidle Hfuel _ first again.
  destruct (previewRun_log svc p m fuel Hne Hq Hidle Hfuel)
    as (Hs & _ & Hq1 & Hp1 & _).
  fold first in Hs, Hq1, Hp1.
  assert (Hrest : runUntil svc t fuel first = first).
  { destruct fuel; cbn [runUntil]; [reflexivity|]. now rewrite Hq1. }
  subst again. unfold click. rewrite Hrest.
  destruct (previewRun_log svc p (withNow t first) fuel Hne Hq1 Hp1 Hfuel)
    as (Hs2 & _ & Hq2 & Hp2 & Hi2 & _).
  unfold previewRun in Hs2, Hq2, Hp2, Hi2.
  rewrite Hs2, Hq2, Hp2, Hi2. cbn [withNow sounds now].
  rewrite Hs, <- app_assoc. repeat split.
Qed.

Lemma preview_replay_witness :
  List.length
    (sounds (run Demo.services 6
               (click Demo.services (Some Demo.project) 60000 6
                  (previewRun Demo.services Demo.project (mounted 0) 6))))
  = 6%nat.
Proof.
  pose proof (preview_replay Demo.services Demo.project (mounted 0) 60000 6
                ltac:(discriminate) eq_refl eq_refl ltac:(cbn; lia)
                ltac:(vm_compute; discriminate)) as H.
  cbv zeta in H. rewrite (proj1 H). reflexivity.
Defined.

(** ** Choices and what they reach *)

(** X25.  The style and the music track picked are the ones [renderVideo]
    is given: after a click on a style and on a track, a render hands over
    the project's scenes with that style and that track. *)
Theorem choices_reach_render
  (sty track : string) (a : App) (p : VideoProject) :
  currentProject a = Some p ->
  Project.scenes p <> [] ->
  exists a2 q,
    handleRenderVideo_begin (musicClick track (handleStyleSelect sty a))
    = Some (a2, q, mkOptions (Project.scenes p) sty (Some track)).
Proof.
  intros Hp Hne. unfold handleStyleSelect. rewrite Hp.
  rewrite (updateProject_own p _ _ Hp).
  unfold musicClick. cbn [currentProject withProject].
  match goal with
  | |- context [updateProject _ ?u (withProject (Some ?q) a)] =>
      rewrite (updateProject_own q u (withProject (Some q) a) eq_refl)
  end.
  unfold handleRenderVideo_begin. cbn.
  destruct (Project.scenes p) as [|s l]; [congruence|]. cbn.
  eexists. eexists. reflexivity.
Qed.

Lemma choices_reach_render_witness :
  exists a2 q,
    handleRenderVideo_begin
      (musicClick "calm" (handleStyleSelect "anime" (Demo.app Demo.project)))
    = Some (a2, q, mkOptions (Project.scenes Demo.project) "anime" (Some "calm"%string)).
Proof.
  apply (choices_reach_render "anime" "calm" (Demo.app Demo.project)
           Demo.project eq_refl).
  discriminate.
Defined.

(** X26.  The style picked is the style of every image request of the
    next scene generation, and the script as edited in the text area is the
    script that is parsed. *)
Theorem choices_reach_generation
  (svc : Services) (sty edited : string) (a : App) (p : VideoProject) :
  currentProject a = Some p ->
  edited <> EmptyString ->
  scenesOf (handleGenerateScenes svc
              (scriptChange edited (handleStyleSelect sty a)))
  = generatedScenes svc sty (topic a) (drawn a) 0
      (parseScriptToScenes svc edited).
Proof.
  intros Hp Hne. unfold handleStyleSelect. rewrite Hp.
  rewrite (updateProject_own p _ _ Hp).
  unfold scriptChange. cbn [currentProject withProject].
  match goal with
  | |- context [updateProject _ ?u (withProject (Some ?q) a)] =>
      rewrite (updateProject_own q u (withProject (Some q) a) eq_refl)
  end.
  match goal with
  | |- context [handleGenerateScenes svc (withProject (Some ?q) ?b)] =>
      rewrite (handleGenerateScenes_scenes svc (withProject (Some q) b) q
                 edited eq_refl eq_refl Hne)
  end.
  reflexivity.
Qed.

Lemma choices_reach_generation_witness :
  map Scene.text
    (scenesOf (handleGenerateScenes Demo.services
                 (scriptChange "x" (handleStyleSelect "anime"
                                      (Demo.app Demo.project)))))
  = ["one"; "two"]%string.
Proof.
  rewrite (choices_reach_generation Demo.services "anime" "x"
             (Demo.app Demo.project) Demo.project eq_refl).
  - reflexivity.
  - discriminate.
Defined.
